(** * Telegram video bot: job store, generation client and intake flow

    A shallow embedding of the Python sources
    - [database.py]                 (module [Database]),
    - [seedance.py]                 (module [Seedance]),
    - [handlers/prompt_handler.py]  (module [PromptHandler]),
    - [handlers/photo_handler.py]   (module [PhotoHandler]),
    together with the parts of the Python runtime they rely on: [str] as a
    sequence of code points, [str.strip], decimal formatting in f-strings,
    the [json] encoding of a list of strings, the strict encoding of text
    and the conversion of the parameters of an SQL statement. *)

From Stdlib Require Import ZArith DecimalString Ascii String Lia.
From stdpp Require Import gmap strings list fin_maps.

Local Open Scope Z_scope.

(** ** Python strings *)

Module Py.

(** A Python [str] is a sequence of code points; [len] counts code points. *)
Abbreviation str := (list N).

(** An ASCII literal of the source. *)
Definition lit (s : string) : str := N_of_ascii <$> list_ascii_of_string s.
#[global] Arguments lit : simpl never.

(** [len(x)], a Python int. *)
Definition len {A} (l : list A) : Z := Z.of_nat (length l).

(** [f"{n}"] for an int [n]. *)
Definition str_of_Z (z : Z) : str := lit (NilZero.string_of_int (Z.to_int z)).

(** The characters [str.strip()] removes: the code points for which
    [str.isspace] holds. *)
Definition is_space (c : N) : bool :=
  (((9 <=? c) && (c <=? 13)) || ((28 <=? c) && (c <=? 32))
   || (c =? 133) || (c =? 160) || (c =? 5760)
   || ((8192 <=? c) && (c <=? 8202))
   || (c =? 8232) || (c =? 8233) || (c =? 8239) || (c =? 8287)
   || (c =? 12288))%N.

Fixpoint lstrip (s : str) : str :=
  match s with
  | c :: s' => if is_space c then lstrip s' else s
  | [] => []
  end.

Definition rstrip (s : str) : str := rev (lstrip (rev s)).

Definition strip (s : str) : str := rstrip (lstrip s).

(** [s.startswith(prefix)]. *)
Definition startswith (s prefix : str) : bool :=
  bool_decide (take (length prefix) s = prefix).

(** [s.endswith(suffix)]. *)
Definition endswith (s suffix : str) : bool :=
  bool_decide (drop (length s - length suffix) s = suffix).

(** [needle in s] for strings: [needle] occurs as a contiguous block. *)
Definition contains (s needle : str) : Prop :=
  ∃ before after, s = before ++ needle ++ after.

(** The code points U+D800..U+DFFF.  A [str] may hold them, one by one;
    they stand for no character and UTF-8 has no encoding for them. *)
Definition is_surrogate (c : N) : bool := ((0xd800 <=? c) && (c <=? 0xdfff))%N.

(** Text: a string of characters, that is, of code points below 0x110000
    that are no surrogates.  Chat messages and file names are text. *)
Definition is_text (s : str) : Prop :=
  Forall (λ c, (c < 0x110000)%N ∧ is_surrogate c = false) s.

End Py.

Import Py.

(** ** The [json] module on lists of strings

    [photos] columns hold [json.dumps(photos)] for a [List[str]] and are read
    back with [json.loads].  The encoder is [json.encoder.encode_basestring_ascii]
    (the default [ensure_ascii=True]) with the default separators; the decoder
    is [json.decoder.JSONArray] over [scanstring] in strict mode. *)

Module Json.

Local Open Scope N_scope.

(** A code point that [str] can hold. *)
Definition is_code_point (c : N) : Prop := c < 0x110000.

Definition valid_str (s : str) : Prop := Forall is_code_point s.

Definition is_high_surrogate (c : N) : bool := (0xd800 <=? c) && (c <=? 0xdbff).
Definition is_low_surrogate (c : N) : bool := (0xdc00 <=? c) && (c <=? 0xdfff).

(** *** Encoder *)

(** One digit of ['{0:04x}'.format(n)]. *)
Definition hex_digit (d : N) : N := if d <? 10 then 48 + d else 87 + d.

(** ['\\u{0:04x}'.format(n)] for [n < 0x10000]. *)
Definition escape_u (n : N) : str :=
  [92; 117; hex_digit (n / 4096 mod 16); hex_digit (n / 256 mod 16);
   hex_digit (n / 16 mod 16); hex_digit (n mod 16)].

(** The [replace] callback of [py_encode_basestring_ascii]: the text that
    stands for one character.  [ESCAPE_ASCII] matches the backslash, the
    double quote and everything outside [' '..'~']. *)
Definition encode_char (c : N) : str :=
  if c =? 92 then [92; 92]
  else if c =? 34 then [92; 34]
  else if (32 <=? c) && (c <=? 126) then [c]
  else if c =? 8 then [92; 98]
  else if c =? 12 then [92; 102]
  else if c =? 10 then [92; 110]
  else if c =? 13 then [92; 114]
  else if c =? 9 then [92; 116]
  else if c <? 0x10000 then escape_u c
  else
    let n := c - 0x10000 in
    let s1 := N.lor 0xd800 (N.land (N.shiftr n 10) 0x3ff) in
    let s2 := N.lor 0xdc00 (N.land n 0x3ff) in
    escape_u s1 ++ escape_u s2.

(** The characters between the quotes. *)
Definition encode_body (s : str) : str := s ≫= encode_char.

(** [encode_basestring_ascii(s)]. *)
Definition encode_str (s : str) : str := 34 :: encode_body s ++ [34].

(** [', '.join(items)]. *)
Fixpoint join_items (items : list str) : str :=
  match items with
  | [] => []
  | [x] => x
  | x :: rest => x ++ [44; 32] ++ join_items rest
  end.

(** [json.dumps(l)] for a list of strings. *)
Definition dumps (l : list str) : str :=
  [91] ++ join_items (encode_str <$> l) ++ [93].

(** *** Decoder *)

Definition is_ws (c : N) : bool := (c =? 32) || (c =? 9) || (c =? 10) || (c =? 13).

(** [WHITESPACE.match(s, end).end()]. *)
Fixpoint skip_ws (s : str) : str :=
  match s with
  | c :: s' => if is_ws c then skip_ws s' else s
  | [] => []
  end.

(** The value of one character of [[0-9A-Fa-f]]. *)
Definition hex_value (c : N) : option N :=
  if (48 <=? c) && (c <=? 57) then Some (c - 48)
  else if (97 <=? c) && (c <=? 102) then Some (c - 87)
  else if (65 <=? c) && (c <=? 70) then Some (c - 55)
  else None.

(** [_decode_uXXXX]: the four hexadecimal digits after [\u] and what
    follows them; [None] is the "Invalid \uXXXX escape" error. *)
Definition decode_uXXXX (s : str) : option (N * str) :=
  match s with
  | a :: b :: c :: d :: rest =>
      a ← hex_value a; b ← hex_value b; c ← hex_value c; d ← hex_value d;
      Some (a * 4096 + b * 256 + c * 16 + d, rest)
  | _ => None
  end.

(** The [BACKSLASH] table. *)
Definition backslash (esc : N) : option N :=
  if esc =? 34 then Some 34
  else if esc =? 92 then Some 92
  else if esc =? 47 then Some 47
  else if esc =? 98 then Some 8
  else if esc =? 102 then Some 12
  else if esc =? 110 then Some 10
  else if esc =? 114 then Some 13
  else if esc =? 116 then Some 9
  else None.

(** The character that a high surrogate [c] and a low surrogate [c'] stand
    for together. *)
Definition joined (c c' : N) : N :=
  0x10000 + N.lor (N.shiftl (c - 0xd800) 10) (c' - 0xdc00).

(** The character that [\uXXXX] stands for when its digits give [n] and
    [rest] follows, and the text after that character: a high surrogate
    followed by the escape of a low surrogate is joined with it. *)
Definition after_escape (n : N) (rest : str) : option (N * str) :=
  if is_high_surrogate n && bool_decide (take 2 rest = [92; 117])
  then
    '(uni2, rest2') ← decode_uXXXX (drop 2 rest);
    if is_low_surrogate uni2
    then Some (joined n uni2, rest2')
    else Some (n, rest)
  else Some (n, rest).

(** [py_scanstring(s, end, strict=True)] from just after the opening quote:
    the decoded string and the text after the closing quote.  Every turn of
    the source's loop takes at least one character, so [length s + 1] turns
    are always enough; [None] is a [JSONDecodeError]. *)
Fixpoint scanstring_loop (fuel : nat) (s : str) : option (str * str) :=
  match fuel with
  | O => None
  | S fuel =>
    match s with
    | [] => None
    | c :: rest =>
      if c =? 34 then Some ([], rest)
      else if c =? 92 then
        match rest with
        | [] => None
        | esc :: rest1 =>
          if esc =? 117 then
            '(uni, rest2) ← decode_uXXXX rest1;
            '(char, rest3) ← after_escape uni rest2;
            '(chars, tail) ← scanstring_loop fuel rest3;
            Some (char :: chars, tail)
          else
            char ← backslash esc;
            '(chars, tail) ← scanstring_loop fuel rest1;
            Some (char :: chars, tail)
        end
      else if c <? 32 then None
      else
        '(chars, tail) ← scanstring_loop fuel rest;
        Some (c :: chars, tail)
    end
  end.

Definition scanstring (s : str) : option (str * str) :=
  scanstring_loop (S (length s)) s.

(** The loop of [JSONArray], entered at the start of a value.  Only string
    values are modelled: any other value ends in [None], like an error. *)
Fixpoint array_loop (fuel : nat) (s : str) : option (list str * str) :=
  match fuel with
  | O => None
  | S fuel =>
    match s with
    | c :: s1 =>
      if c =? 34 then
        '(value, s2) ← scanstring s1;
        match skip_ws s2 with
        | d :: s3 =>
          if d =? 93 then Some ([value], s3)
          else if d =? 44 then
            '(values, tail) ← array_loop fuel (skip_ws s3);
            Some (value :: values, tail)
          else None
        | [] => None
        end
      else None
    | [] => None
    end
  end.

(** [json.loads(s)] when [s] is a JSON array of strings: [Some l].  [None]
    stands for a [JSONDecodeError] and for documents that are another JSON
    value, which this program never stores. *)
Definition loads (s : str) : option (list str) :=
  match skip_ws s with
  | c :: s1 =>
    if c =? 91 then
      '(values, tail) ←
        match skip_ws s1 with
        | d :: s2 =>
            if d =? 93 then Some ([], s2)
            else array_loop (S (length s1)) (skip_ws s1)
        | [] => None
        end;
      match skip_ws tail with
      | [] => Some values
      | _ => None
      end
    else None
  | [] => None
  end.

(** A high surrogate immediately followed by a low surrogate, as two
    separate characters of one [str]. *)
Fixpoint has_surrogate_pair (s : str) : bool :=
  match s with
  | c :: s' =>
      match s' with
      | c' :: _ => (is_high_surrogate c && is_low_surrogate c') || has_surrogate_pair s'
      | [] => false
      end
  | [] => false
  end.

(** [s] with every high surrogate that is immediately followed by a low
    surrogate replaced, together with it, by the character the two stand
    for; pairs are taken from the left. *)
Fixpoint join_surrogates (s : str) : str :=
  match s with
  | c :: s' =>
      match s' with
      | c' :: s'' =>
          if is_high_surrogate c && is_low_surrogate c'
          then joined c c' :: join_surrogates s''
          else c :: join_surrogates s'
      | [] => [c]
      end
  | [] => []
  end.

End Json.

(** ** Exceptions *)

(** The exceptions that travel through the modelled code: the [NameError]
    of a name that is not bound, the [ValueError] of [JobStatus(value)] for a
    [value] that no member has, and any other exception with the name of its
    class and its [str(e)]. *)
Inductive exn :=
| NameError (name : str)
| ValueError (value : str)
| Error (kind msg : str).

(** [str(e)]; [repr] is the Python builtin of that name on strings. *)
Definition exn_str (repr : str → str) (e : exn) : str :=
  match e with
  | NameError name => lit "name '" ++ name ++ lit "' is not defined"
  | ValueError value => repr value ++ lit " is not a valid JobStatus"
  | Error _ msg => msg
  end.

(** What a call ends in: a value, or an exception. *)
Inductive outcome (A : Type) :=
| Return (a : A)
| Raise (e : exn).
Arguments Return {A} a.
Arguments Raise {A} e.

(** ** Text encodings

    [str.encode] with the [strict] error handler, as [sqlite3] applies it to a
    [str] parameter (always UTF-8) and a text file to what is written to it
    (the encoding of the locale).  The model keeps whether a string can be
    encoded and the [UnicodeEncodeError] when it cannot; the bytes are not
    modelled. *)

Module Codec.

(** An encoding that translates one code point at a time: the name and the
    reason its errors carry, and the code points it has an encoding for. *)
Record t := {
  name : str;
  encodes : N → bool;
  reason : str;
}.

Definition utf_8 : t :=
  {| name := lit "utf-8";
     encodes := λ c, negb (is_surrogate c);
     reason := lit "surrogates not allowed" |}.

(** [latin-1] (ISO 8859-1), the encoding of a locale such as
    [en_US.ISO-8859-1]. *)
Definition latin_1 : t :=
  {| name := lit "latin-1";
     encodes := λ c, (c <? 256)%N;
     reason := lit "ordinal not in range(256)" |}.

(** ['%0{width}x' % n]. *)
Fixpoint hex (width : nat) (n : N) : str :=
  match width with
  | O => []
  | S width => hex width (n / 16) ++ [Json.hex_digit (n mod 16)]
  end%N.

(** The length of the run of code points at the start of [s] that the
    encoding does not have. *)
Fixpoint run (encoding : t) (s : str) : nat :=
  match s with
  | c :: s' => if encodes encoding c then O else S (run encoding s')
  | [] => O
  end.

(** The first code point that cannot be encoded: its position (counted
    from [start]), the code point, and the length of the run of such code
    points that it starts. *)
Fixpoint first_error (encoding : t) (s : str) (start : nat) : option (nat * N * nat) :=
  match s with
  | c :: s' =>
      if encodes encoding c then first_error encoding s' (S start)
      else Some (start, c, S (run encoding s'))
  | [] => None
  end.

(** [str(e)] for a [UnicodeEncodeError] on the characters from [start] up
    to, not including, [start + count]. *)
Definition error_str (encoding : t) (start : nat) (badchar : N) (count : nat) : str :=
  if bool_decide (count = 1%nat) then
    lit "'" ++ name encoding ++ lit "' codec can't encode character '"
    ++ (if (badchar <=? 0xff)%N then lit "\x" ++ hex 2 badchar
        else if (badchar <=? 0xffff)%N then lit "\u" ++ hex 4 badchar
        else lit "\U" ++ hex 8 badchar)
    ++ lit "' in position " ++ str_of_Z (Z.of_nat start) ++ lit ": "
    ++ reason encoding
  else
    lit "'" ++ name encoding ++ lit "' codec can't encode characters in position "
    ++ str_of_Z (Z.of_nat start) ++ lit "-"
    ++ str_of_Z (Z.of_nat (start + count - 1)) ++ lit ": " ++ reason encoding.

(** [s.encode(encoding)]: [None] when it succeeds, and [str(e)] of the
    [UnicodeEncodeError] it raises otherwise. *)
Definition encode_error (encoding : t) (s : str) : option str :=
  '(start, badchar, count) ← first_error encoding s 0;
  Some (error_str encoding start badchar count).

End Codec.

(** ** Parameters of an SQL statement

    Before a statement runs, [sqlite3] converts its parameters in the order
    they are given and raises at the first one it cannot convert: an [int]
    that does not fit in 64 bits, a [str] that UTF-8 cannot encode. *)

Module Sqlite.

Inductive param :=
| Integer (z : Z)
| Text (s : str)
| Null.

(** The range of an SQLite [INTEGER]. *)
Definition fits (z : Z) : bool := (- 2 ^ 63 <=? z) && (z <? 2 ^ 63).

Definition bind_param (p : param) : outcome () :=
  match p with
  | Integer z =>
      if fits z then Return ()
      else Raise (Error (lit "OverflowError")
                    (lit "Python int too large to convert to SQLite INTEGER"))
  | Text s =>
      match Codec.encode_error Codec.utf_8 s with
      | None => Return ()
      | Some msg => Raise (Error (lit "UnicodeEncodeError") msg)
      end
  | Null => Return ()
  end.

Fixpoint bind (params : list param) : outcome () :=
  match params with
  | p :: params =>
      match bind_param p with
      | Return _ => bind params
      | Raise e => Raise e
      end
  | [] => Return ()
  end.

End Sqlite.

(** ** database.py

    The SQLite file is modelled as the two tables it holds.  A row is a
    record with one field per column, a nullable column is an [option], and
    [CURRENT_TIMESTAMP] is the clock reading [now] passed to the operation.
    [create_job], through which the ids and the text of a chat reach the
    [jobs] table, converts its parameters first ([Sqlite.bind]) and raises
    when one does not convert; the connection then rolls back.  The other
    operations are modelled on parameters that convert.  Failures of the
    storage engine itself are outside the model: a statement whose
    parameters convert runs and commits. *)

Module Job.
Record t := {
  id : Z;
  user_id : Z;
  chat_id : Z;
  photos : option str;
  prompt : option str;
  status : option str;
  seedance_job_id : option str;
  video_path : option str;
  created_at : option str;
  completed_at : option str;
  error_message : option str;
}.
End Job.

Module Session.
Record t := {
  user_id : Z;
  state : option str;
  photos : option str;
  current_prompt : option str;
  last_job_id : option Z;
  updated_at : option str;
}.
End Session.

Module Database.

(** The database file: table [jobs] by [id], the [AUTOINCREMENT] counter
    SQLite keeps for it, and table [user_sessions] by [user_id]. *)
Record t := {
  jobs : gmap Z Job.t;
  jobs_seq : Z;
  user_sessions : gmap Z Session.t;
}.

(** The schema of [_init_db] on a fresh file. *)
Definition _init_db : t := {| jobs := ∅; jobs_seq := 0; user_sessions := ∅ |}.

(** [create_job]: the new database and [cursor.lastrowid], or the exception
    of the [INSERT] whose parameters do not convert.  The second statement
    binds nothing that the first has not bound, apart from the new id. *)
Definition create_job (self : t) (now : str)
    (user_id chat_id : Z) (photos : list str) (prompt : str) : outcome (t * Z) :=
  match Sqlite.bind [Sqlite.Integer user_id; Sqlite.Integer chat_id;
                     Sqlite.Text (Json.dumps photos); Sqlite.Text prompt] with
  | Raise e => Raise e
  | Return _ =>
  let job_id := jobs_seq self + 1 in
  let row := {|
    Job.id := job_id; Job.user_id := user_id; Job.chat_id := chat_id;
    Job.photos := Some (Json.dumps photos); Job.prompt := Some prompt;
    Job.status := Some (lit "pending");
    Job.seedance_job_id := None; Job.video_path := None;
    Job.created_at := Some now; Job.completed_at := None;
    Job.error_message := None |} in
  let session := {|
    Session.user_id := user_id; Session.state := Some (lit "generating");
    Session.photos := Some (Json.dumps photos);
    Session.current_prompt := Some prompt;
    Session.last_job_id := Some job_id; Session.updated_at := Some now |} in
  Return
    ({| jobs := <[job_id := row]> (jobs self);
        jobs_seq := job_id;
        user_sessions := <[user_id := session]> (user_sessions self) |},
     job_id)
  end.

(** [get_job]: [dict(row)], or [None]. *)
Definition get_job (self : t) (job_id : Z) : option Job.t := jobs self !! job_id.

(** [update_job_status]; the three optional arguments default to [None]. *)
Definition update_job_status (self : t) (now : str) (job_id : Z) (status : str)
    (seedance_job_id video_path error_message : option str) : t :=
  let set (j : Job.t) : Job.t :=
    if bool_decide (status = lit "completed") then
      {| Job.id := Job.id j; Job.user_id := Job.user_id j;
         Job.chat_id := Job.chat_id j;
         Job.photos := Job.photos j; Job.prompt := Job.prompt j;
         Job.status := Some status;
         Job.seedance_job_id := seedance_job_id;
         Job.video_path := video_path;
         Job.created_at := Job.created_at j;
         Job.completed_at := Some now;
         Job.error_message := error_message |}
    else
      {| Job.id := Job.id j; Job.user_id := Job.user_id j;
         Job.chat_id := Job.chat_id j;
         Job.photos := Job.photos j; Job.prompt := Job.prompt j;
         Job.status := Some status;
         Job.seedance_job_id := seedance_job_id;
         Job.video_path := Job.video_path j;
         Job.created_at := Job.created_at j;
         Job.completed_at := Job.completed_at j;
         Job.error_message := error_message |} in
  {| jobs := alter set job_id (jobs self);
     jobs_seq := jobs_seq self;
     user_sessions := user_sessions self |}.

(** [get_user_session]: [dict(row)], or [None]. *)
Definition get_user_session (self : t) (user_id : Z) : option Session.t :=
  user_sessions self !! user_id.

(** The keyword arguments [update_user_state] looks at; [None] is a keyword
    that was not passed. *)
Record kwargs := {
  kw_photos : option (list str);
  kw_current_prompt : option str;
  kw_last_job_id : option Z;
}.

Definition no_kwargs : kwargs :=
  {| kw_photos := None; kw_current_prompt := None; kw_last_job_id := None |}.

(** [update_user_state(user_id, state, **kwargs)]. *)
Definition update_user_state (self : t) (now : str) (user_id : Z) (state : str)
    (kw : kwargs) : t :=
  let row :=
    match user_sessions self !! user_id with
    | Some session =>
        {| Session.user_id := Session.user_id session;
           Session.state := Some state;
           Session.photos :=
             match kw_photos kw with
             | Some photos => Some (Json.dumps photos)
             | None => Session.photos session
             end;
           Session.current_prompt :=
             match kw_current_prompt kw with
             | Some p => Some p
             | None => Session.current_prompt session
             end;
           Session.last_job_id :=
             match kw_last_job_id kw with
             | Some j => Some j
             | None => Session.last_job_id session
             end;
           Session.updated_at := Some now |}
    | None =>
        {| Session.user_id := user_id;
           Session.state := Some state;
           Session.photos := Some (Json.dumps (default [] (kw_photos kw)));
           Session.current_prompt := Some (default [] (kw_current_prompt kw));
           Session.last_job_id := kw_last_job_id kw;
           Session.updated_at := Some now |}
    end in
  {| jobs := jobs self; jobs_seq := jobs_seq self;
     user_sessions := <[user_id := row]> (user_sessions self) |}.

(** [clear_user_session]. *)
Definition clear_user_session (self : t) (user_id : Z) : t :=
  {| jobs := jobs self; jobs_seq := jobs_seq self;
     user_sessions := delete user_id (user_sessions self) |}.

(** [reset_user_generation_state]. *)
Definition reset_user_generation_state (self : t) (now : str) (user_id : Z) : t :=
  let set (s : Session.t) : Session.t :=
    {| Session.user_id := Session.user_id s;
       Session.state := Some (lit "idle");
       Session.photos := Some (lit "[]");
       Session.current_prompt := Some [];
       Session.last_job_id := Session.last_job_id s;
       Session.updated_at := Some now |} in
  {| jobs := jobs self; jobs_seq := jobs_seq self;
     user_sessions := alter set user_id (user_sessions self) |}.

End Database.

(** ** The outside world *)

(** What the program does to the outside world, in order: waits, HTTP
    requests, files written and the calls to the chat transport. *)
Inductive event :=
| Sleep (seconds : Z)
| HttpPost (url : str) (prompt resolution : str) (character_consistency : bool)
    (duration seed : option Z) (images : list str)
| HttpGet (url : str)
| WriteFile (path contents : str)
| ReplyText (text : str)
| EditText (text : str)
| SendMessage (chat_id : Z) (text : str)
| SendVideo (chat_id : Z) (video caption : str).

(** The mutable surroundings of a call: the local files (path to contents;
    writes always succeed), the database and the log of events so far,
    oldest first. *)
Record io := { fs : gmap str str; db : Database.t; trace : list event }.

(** Computations that read and change [io] and may raise. *)
Definition M (A : Type) : Type := io → outcome A * io.

Definition ret {A} (a : A) : M A := λ s, (Return a, s).

Definition raise {A} (e : exn) : M A := λ s, (Raise e, s).

Definition bind {A B} (c : M A) (k : A → M B) : M B :=
  λ s, match c s with
       | (Return a, s') => k a s'
       | (Raise e, s') => (Raise e, s')
       end.

#[global] Instance M_bind : MBind M := λ A B k c, bind c k.
#[global] Instance M_ret : MRet M := λ A a, ret a.

(** [try: c except Exception as e: handler(e)]. *)
Definition try_except {A} (c : M A) (handler : exn → M A) : M A :=
  λ s, match c s with
       | (Return a, s') => (Return a, s')
       | (Raise e, s') => handler e s'
       end.

Definition emit (e : event) : M () :=
  λ s, (Return (), {| fs := fs s; db := db s; trace := trace s ++ [e] |}).

(** The state [s] after [events] more. *)
Definition log (s : io) (events : list event) : io :=
  {| fs := fs s; db := db s; trace := trace s ++ events |}.

(** A statement on the database, and a query. *)
Definition db_do (f : Database.t → Database.t) : M () :=
  λ s, (Return (), {| fs := fs s; db := f (db s); trace := trace s |}).

Definition db_get {A} (f : Database.t → A) : M A := λ s, (Return (f (db s)), s).

Definition lift {A} (o : outcome A) : M A := λ s, (o, s).

(** [open(path).read()] and the like. *)
Definition read_file (repr : str → str) (path : str) : M str :=
  λ s, match fs s !! path with
       | Some contents => (Return contents, s)
       | None =>
           (Raise (Error (lit "FileNotFoundError")
                     (lit "[Errno 2] No such file or directory: " ++ repr path)), s)
       end.

(** The files among [paths] that exist, opened and read. *)
Definition open_existing (paths : list str) : M (list str) :=
  λ s, (Return (omap (λ p, fs s !! p) paths), s).

(** An operation on the database that returns a value, or raises and
    leaves the database as it was. *)
Definition db_call {A} (f : Database.t → outcome (Database.t * A)) : M A :=
  λ s, match f (db s) with
       | Return (d, a) => (Return a, {| fs := fs s; db := d; trace := trace s |})
       | Raise e => (Raise e, s)
       end.

(** A statement on the database with the parameters it binds. *)
Definition db_exec (params : list Sqlite.param) (f : Database.t → Database.t) : M () :=
  lift (Sqlite.bind params);; db_do f.

(** [json.loads(column)] for the [photos] column of a row.  The message of
    a [JSONDecodeError] is not modelled; nothing reads it. *)
Definition json_loads (column : option str) : M (list str) :=
  match column with
  | None =>
      raise (Error (lit "TypeError")
               (lit "the JSON object must be str, bytes or bytearray, not NoneType"))
  | Some s =>
      match Json.loads s with
      | Some l => ret l
      | None => raise (Error (lit "JSONDecodeError") [])
      end
  end.

Definition write_file (path contents : str) : M () :=
  λ s, (Return (), {| fs := <[path := contents]> (fs s); db := db s;
                      trace := trace s ++ [WriteFile path contents] |}).

(** [Path(path).write_text(data)] in a process whose locale has the given
    encoding: the file is opened for writing, which leaves it empty, and
    then [data] is encoded and written in one piece. *)
Definition write_text (encoding : Codec.t) (path data : str) : M () :=
  match Codec.encode_error encoding data with
  | None => write_file path data
  | Some msg =>
      write_file path [];;
      raise (Error (lit "UnicodeEncodeError") msg)
  end.

(** [str(directory / name)] for a [pathlib.Path] whose [str] is
    [directory] and a [name] that is one path component. *)
Definition joinpath (directory name : str) : str :=
  if bool_decide (directory = lit ".") then name
  else if endswith directory (lit "/") then directory ++ name
  else directory ++ lit "/" ++ name.

(** [f"{x}"] for an optional string: [None] prints as its name. *)
Definition fmt (x : option str) : str := default (lit "None") x.

(** ** config.py and the chat transport *)

Module Config.
Record t := {
  telegram_bot_token : str;
  admin_user_id : Z;
  seedance_api_key : str;
  seedance_api_url : str;
  mock_mode : bool;
  video_storage_path : str;
  max_photos : Z;
  generation_timeout : Z;
  status_update_interval : Z;
}.

(** [Config.load] in a process whose environment sets none of the options. *)
Definition defaults : t :=
  {| telegram_bot_token := [];
     admin_user_id := 0;
     seedance_api_key := [];
     seedance_api_url := lit "https://api.seedance.example.com/v1";
     mock_mode := true;
     video_storage_path := lit "videos";
     max_photos := 4;
     generation_timeout := 300;
     status_update_interval := 30 |}.
End Config.

Module Telegram.

Record Document := { file_id : str; mime_type : option str }.

(** What the handlers read of a message: its text, the [file_id]s of the
    sizes of its photo (empty when it has none), [media_group_id], and its
    document. *)
Record Message := {
  text : str;
  photo : list str;
  media_group_id : option str;
  document : option Document;
}.

Record Update := {
  effective_user : Z;
  effective_chat : Z;
  message : Message;
}.

(** The transport's side of [_save_photo]: the file behind a [file_id], or
    [None] when [get_file] or [download_to_drive] raises; and
    [int(os.path.getctime(__file__))]. *)
Record env := {
  fetch : str → option str;
  getctime : Z;
}.

End Telegram.

(** ** seedance.py *)

Module Seedance.

Inductive JobStatus := PENDING | PROCESSING | COMPLETED | FAILED.

#[global] Instance JobStatus_eq_dec : EqDecision JobStatus.
Proof. solve_decision. Defined.

(** [status.value]. *)
Definition value (s : JobStatus) : str :=
  match s with
  | PENDING => lit "pending"
  | PROCESSING => lit "processing"
  | COMPLETED => lit "completed"
  | FAILED => lit "failed"
  end.

(** [JobStatus(v)], the lookup of a member by value; [None] is the
    [ValueError] of [Enum]. *)
Definition JobStatus_of (v : str) : option JobStatus :=
  if bool_decide (v = lit "pending") then Some PENDING
  else if bool_decide (v = lit "processing") then Some PROCESSING
  else if bool_decide (v = lit "completed") then Some COMPLETED
  else if bool_decide (v = lit "failed") then Some FAILED
  else None.

Record VideoGenerationRequest := {
  prompt : str;
  images : list str;
  resolution : str;
  duration : option Z;
  seed : option Z;
}.

Record VideoGenerationResponse := {
  job_id : option str;
  status : JobStatus;
  video_url : option str;
  error_message : option str;
  progress : option Z;
}.

(** The attributes [SeedanceClient.__init__] copies from the configuration. *)
Record t := {
  api_url : str;
  api_key : str;
  mock_mode : bool;
  video_storage_path : str;
}.

(** An HTTP response: [response.status], [await response.text()] and the
    decoded body, which is [await response.json()] already read through the
    [.get] calls of the source, or the chunks of a download; reading it may
    raise. *)
Record response (A : Type) := {
  code : Z;
  text : str;
  body : outcome A;
}.
Arguments code {A} _.
Arguments text {A} _.
Arguments body {A} _.

(** The fields the source reads from the payload of [GET /jobs/{id}]; [None]
    is a missing key. *)
Record status_data := {
  sd_status : option str;
  sd_progress : option Z;
  sd_video_url : option str;
  sd_error : option str;
}.

(** The provider and the rest of the environment of one call: the reply to
    the submission (its JSON reduced to [result.get("job_id")]), the reply
    to the [n]-th status request, the reply to the download of a URL with
    the chunks of its body, the digits of [uuid.uuid4().hex], and the
    encoding of the locale, which text files get.  A [Raise] is an exception
    of the HTTP client. *)
Record provider := {
  post_generate : outcome (response (option str));
  get_job : nat → outcome (response status_data);
  get_video : option str → outcome (response (list str));
  uuid4_hex : str;
  locale : Codec.t;
}.

Definition placeholder_text (job_id : str) (request : VideoGenerationRequest) : str :=
  lit "MOCK VIDEO PLACEHOLDER" ++ [10%N]
  ++ lit "====================" ++ [10%N]
  ++ lit "Job ID: " ++ job_id ++ [10%N]
  ++ lit "Prompt: " ++ prompt request ++ [10%N]
  ++ lit "Images: " ++ str_of_Z (len (images request)) ++ [10%N]
  ++ lit "Status: ready (mock mode)" ++ [10%N]
  ++ [10%N]
  ++ lit "To enable real video generation:" ++ [10%N]
  ++ lit "1. Set MOCK_MODE=false in .env" ++ [10%N]
  ++ lit "2. Add your Seedance API key" ++ [10%N]
  ++ lit "3. Wait until Feb 24 for API access" ++ [10%N]
  ++ [10%N]
  ++ lit "This placeholder represents where the generated video would be stored."
  ++ [10%N].

(** [SeedanceClient.__init__]. *)
Definition __init__ (config : Config.t) : t :=
  {| api_url := Config.seedance_api_url config;
     api_key := Config.seedance_api_key config;
     mock_mode := Config.mock_mode config;
     video_storage_path := Config.video_storage_path config |}.

(** [SeedanceClient._mock_generate]. *)
Definition _mock_generate (self : t) (w : provider)
    (request : VideoGenerationRequest) : M VideoGenerationResponse :=
  let job_id := lit "mock_" ++ take 16 (uuid4_hex w) in
  emit (Sleep 1);;
  let placeholder_path := joinpath (video_storage_path self) (job_id ++ lit ".mock") in
  write_text (locale w) placeholder_path (placeholder_text job_id request);;
  ret {| job_id := Some job_id; status := COMPLETED;
         video_url := Some placeholder_path;
         error_message := None; progress := Some 100 |}.

Definition max_attempts : nat := 60.

(** The [while attempt < max_attempts] loop of [_real_generate], with
    [remaining = max_attempts - attempt] turns left. *)
Fixpoint poll (self : t) (w : provider) (job_id : option str)
    (remaining attempt : nat) : M VideoGenerationResponse :=
  match remaining with
  | O =>
      ret {| job_id := job_id; status := FAILED; video_url := None;
             error_message := Some (lit "Timeout waiting for generation");
             progress := None |}
  | S remaining' =>
      emit (HttpGet (api_url self ++ lit "/jobs/" ++ fmt job_id));;
      status_response ← lift (get_job w attempt);
      let next :=
        emit (Sleep 5);;
        poll self w job_id remaining' (S attempt) in
      if code status_response =? 200 then
        status_data ← lift (body status_response);
        let v := default (lit "pending") (sd_status status_data) in
        match JobStatus_of v with
        | None => raise (ValueError v)
        | Some status =>
            let progress := default 0 (sd_progress status_data) in
            if bool_decide (status = COMPLETED) then
              let video_url := sd_video_url status_data in
              emit (HttpGet (fmt video_url));;
              video_response ← lift (get_video w video_url);
              if code video_response =? 200 then
                let video_path :=
                  joinpath (video_storage_path self) (fmt job_id ++ lit ".mp4") in
                chunks ← lift (body video_response);
                write_file video_path (concat chunks);;
                ret {| job_id := job_id; status := status;
                       video_url := Some video_path;
                       error_message := None; progress := Some progress |}
              else
                ret {| job_id := job_id; status := status; video_url := None;
                       error_message := Some (lit "Failed to download video");
                       progress := None |}
            else if bool_decide (status = FAILED) then
              ret {| job_id := job_id; status := status; video_url := None;
                     error_message :=
                       Some (default (lit "Unknown error") (sd_error status_data));
                     progress := None |}
            else next
        end
      else next
  end.

(** [SeedanceClient._real_generate]. *)
Definition _real_generate (self : t) (w : provider)
    (request : VideoGenerationRequest) : M VideoGenerationResponse :=
  image_files ← open_existing (images request);
  let duration :=
    match duration request with
    | Some d => if d =? 0 then None else Some d
    | None => None
    end in
  emit (HttpPost (api_url self ++ lit "/generate")
          (prompt request) (resolution request)
          (bool_decide (len (images request) > 1))
          duration (seed request) image_files);;
  response ← lift (post_generate w);
  if negb (code response =? 200) then
    ret {| job_id := Some []; status := FAILED; video_url := None;
           error_message := Some (lit "API error: " ++ text response);
           progress := None |}
  else
    job_id ← lift (body response);
    poll self w job_id max_attempts 0.

(** [SeedanceClient.generate_video]. *)
Definition generate_video (self : t) (w : provider)
    (request : VideoGenerationRequest) : M VideoGenerationResponse :=
  if mock_mode self then _mock_generate self w request
  else _real_generate self w request.

(** *** Vocabulary for the properties of the live backend *)

(** A reply to a status request after which the loop waits and asks again:
    a status other than 200, or a payload whose status is [pending] or
    [processing]. *)
Definition keeps_waiting (reply : outcome (response status_data)) : Prop :=
  ∃ r, reply = Return r
       ∧ (code r ≠ 200
          ∨ ∃ data, body r = Return data
                    ∧ (JobStatus_of (default (lit "pending") (sd_status data)) = Some PENDING
                       ∨ JobStatus_of (default (lit "pending") (sd_status data))
                         = Some PROCESSING)).

Definition status_url (self : t) (job_id : option str) : str :=
  api_url self ++ lit "/jobs/" ++ fmt job_id.

(** The events of [n] status requests that find the job still running. *)
Definition waiting_rounds (self : t) (job_id : option str) (n : nat) : list event :=
  mjoin (replicate n [HttpGet (status_url self job_id); Sleep 5]).

(** The event of the submission of [request] from state [s]. *)
Definition submission (self : t) (request : VideoGenerationRequest) (s : io) : event :=
  HttpPost (api_url self ++ lit "/generate")
    (prompt request) (resolution request)
    (bool_decide (len (images request) > 1))
    (match duration request with
     | Some d => if d =? 0 then None else Some d
     | None => None
     end)
    (seed request)
    (omap (λ p, fs s !! p) (images request)).

Definition failed_response (job_id : option str) (error : str) : VideoGenerationResponse :=
  {| job_id := job_id; status := FAILED; video_url := None;
     error_message := Some error; progress := None |}.

End Seedance.

(** ** handlers/prompt_handler.py *)

Module PromptHandler.

(** The attributes of the handler. *)
Record t := {
  config : Config.t;
  min_prompt_length : Z;
  max_prompt_length : Z;
}.

(** [PromptHandler.__init__]. *)
Definition __init__ (config : Config.t) : t :=
  {| config := config; min_prompt_length := 10; max_prompt_length := 500 |}.

Definition msg_empty : str := lit "Please enter a prompt describing your video.".

Definition msg_too_short (self : t) (prompt : str) : str :=
  lit "Prompt is too short (" ++ str_of_Z (len prompt) ++ lit " chars). "
  ++ lit "Please describe your video in at least "
  ++ str_of_Z (min_prompt_length self) ++ lit " characters.".

Definition msg_too_long (self : t) (prompt : str) : str :=
  lit "Prompt is too long (" ++ str_of_Z (len prompt) ++ lit " chars). "
  ++ lit "Please keep it under "
  ++ str_of_Z (max_prompt_length self) ++ lit " characters.".

Definition msg_generic : str := lit "Please provide a more detailed prompt.".

Definition stoplist : list str := [lit "a"; lit "i"; lit "me"; lit "test"].

(** [PromptHandler._validate_prompt]: [None] accepts, [Some msg] rejects with
    the message shown to the user. *)
Definition _validate_prompt (self : t) (prompt : str) : option str :=
  if bool_decide (prompt = []) then Some msg_empty
  else if len prompt <? min_prompt_length self then Some (msg_too_short self prompt)
  else if len prompt >? max_prompt_length self then Some (msg_too_long self prompt)
  else if bool_decide (strip prompt ∈ stoplist) then Some msg_generic
  else None.

Definition msg_starting : str :=
  [0x1f3ac%N] ++ lit " *Starting video generation...*" ++ [10%N] ++ [10%N]
  ++ [0x23f3%N] ++ lit " Preparing your images and prompt..." ++ [10%N]
  ++ lit "This may take 2-3 minutes.".

Definition msg_success : str :=
  [0x2705%N] ++ lit " *Video generated successfully!*" ++ [10%N] ++ [10%N]
  ++ lit "Your video is ready. Sending it now...".

Definition msg_done : str :=
  [0x1f389%N] ++ lit " *Done!* Your AI-generated video has been sent!"
  ++ [10%N] ++ [10%N]
  ++ lit "Use /generate to create another video, or /templates for ideas.".

Definition msg_failed (error_message : option str) : str :=
  [0x274c%N] ++ lit " *Generation failed*" ++ [10%N] ++ [10%N] ++ fmt error_message.

Definition msg_error (error_msg : str) : str :=
  [0x274c%N] ++ lit " *An error occurred*" ++ [10%N] ++ [10%N] ++ error_msg.

Definition msg_mock (placeholder : str) : str :=
  [0x1f3ac%N] ++ lit " *Your video is ready!*" ++ [10%N] ++ [10%N]
  ++ [0x26a0%N] ++ [0xfe0f%N] ++ lit " *MOCK MODE* " ++ [0x26a0%N] ++ [0xfe0f%N]
  ++ [10%N]
  ++ lit "The bot is currently in test mode." ++ [10%N] ++ [10%N]
  ++ lit "*To get real videos:*" ++ [10%N]
  ++ lit "1. Wait for Seedance API launch (Feb 24)" ++ [10%N]
  ++ lit "2. Set `MOCK_MODE=false` in .env" ++ [10%N]
  ++ lit "3. Add your Seedance API key" ++ [10%N] ++ [10%N]
  ++ lit "*Your prompt was received and would generate:*" ++ [10%N]
  ++ [0x1f4c4%N] ++ lit " " ++ take 500 placeholder ++ lit "...".

Definition video_caption : str := [0x1f3ac%N] ++ lit " Your AI-generated video!".

Definition msg_not_sent (e : str) : str :=
  [0x26a0%N] ++ [0xfe0f%N] ++ lit " Video generated but couldn't send: " ++ e.

Section WithRepr.

(** The builtin [repr] on strings, which [str(e)] of some exceptions uses. *)
Variable repr : str → str.

(** [PromptHandler._send_video]. *)
Definition _send_video (chat_id : Z) (video_path : option str) : M () :=
  try_except
    (match video_path with
     | None =>
         raise (Error (lit "AttributeError")
                  (lit "'NoneType' object has no attribute 'endswith'"))
     | Some video_path =>
         if endswith video_path (lit ".mock") then
           placeholder ← read_file repr video_path;
           emit (SendMessage chat_id (msg_mock placeholder))
         else
           video_file ← read_file repr video_path;
           emit (SendVideo chat_id video_file video_caption)
     end)
    (λ e, emit (SendMessage chat_id (msg_not_sent (exn_str repr e)))).

(** A Python object as far as name lookup needs to tell objects apart: an
    [int], or any other object. *)
Inductive pyobj :=
| PyInt (z : Z)
| PyObject.

(** The names bound while the body of [_start_generation] runs, with their
    values: its parameters, its local variables, the names it imports and
    the globals of the module.  No builtin is called [user_id]. *)
Definition _start_generation_names (job_id : Z) : list (str * pyobj) :=
  [(lit "self", PyObject); (lit "update", PyObject); (lit "context", PyObject);
   (lit "job_id", PyInt job_id); (lit "photos", PyObject);
   (lit "prompt", PyObject);
   (lit "SeedanceClient", PyObject); (lit "VideoGenerationRequest", PyObject);
   (lit "client", PyObject); (lit "image_paths", PyObject);
   (lit "request", PyObject); (lit "status_message", PyObject);
   (lit "response", PyObject);
   (lit "json", PyObject); (lit "Path", PyObject); (lit "List", PyObject);
   (lit "Optional", PyObject); (lit "Update", PyObject);
   (lit "CallbackContext", PyObject); (lit "get_config", PyObject);
   (lit "Database", PyObject); (lit "format_templates_list", PyObject);
   (lit "get_template_by_name", PyObject); (lit "PromptHandler", PyObject)].

(** The value of a name, or the [NameError] of a name that is not bound. *)
Definition load_name (names : list (str * pyobj)) (name : str) : M pyobj :=
  match list_find (λ entry, entry.1 = name) names with
  | Some (_, entry) => ret entry.2
  | None => raise (NameError name)
  end.

(** An argument for the [user_id] of a statement.  The source never passes
    anything but an [int]; the model lets any other object fail to bind. *)
Definition as_int (x : pyobj) : M Z :=
  match x with
  | PyInt z => ret z
  | PyObject => raise (Error (lit "ProgrammingError") (lit "Error binding parameter"))
  end.

(** [PromptHandler._start_generation]. *)
Definition _start_generation (self : t) (w : Seedance.provider) (now : str)
    (update : Telegram.Update) (job_id : Z) (photos : list str) (prompt : str)
    : M () :=
  let names := _start_generation_names job_id in
  let client := Seedance.__init__ (config self) in
  let request := {|
    Seedance.prompt := prompt; Seedance.images := photos;
    Seedance.resolution := lit "1080p";
    Seedance.duration := None; Seedance.seed := None |} in
  emit (ReplyText msg_starting);;
  db_do (λ d, Database.update_job_status d now job_id (lit "generating") None None None);;
  try_except
    (response ← Seedance.generate_video client w request;
     if bool_decide (Seedance.value (Seedance.status response) = lit "completed") then
       db_do (λ d, Database.update_job_status d now job_id (lit "completed")
                     (Seedance.job_id response) (Seedance.video_url response) None);;
       emit (EditText msg_success);;
       _send_video (Telegram.effective_chat update) (Seedance.video_url response);;
       emit (SendMessage (Telegram.effective_chat update) msg_done);;
       db_do (λ d, Database.reset_user_generation_state d now
                     (Telegram.effective_user update))
     else
       emit (EditText (msg_failed (Seedance.error_message response)));;
       db_do (λ d, Database.update_job_status d now job_id (lit "failed")
                     None None (Seedance.error_message response));;
       user_id ← load_name names (lit "user_id");
       user_id ← as_int user_id;
       db_do (λ d, Database.clear_user_session d user_id))
    (λ e,
       let error_msg := exn_str repr e in
       emit (EditText (msg_error error_msg));;
       db_do (λ d, Database.update_job_status d now job_id (lit "failed")
                     None None (Some error_msg));;
       db_do (λ d, Database.clear_user_session d (Telegram.effective_user update))).

(** [PromptHandler.handle_prompt]. *)
Definition handle_prompt (self : t) (w : Seedance.provider) (now : str)
    (update : Telegram.Update) : M () :=
  let user_id := Telegram.effective_user update in
  let chat_id := Telegram.effective_chat update in
  let prompt_text := strip (Telegram.text (Telegram.message update)) in
  session ← db_get (λ d, Database.get_user_session d user_id);
  match session with
  | None => emit (ReplyText (lit "Please start a new generation with /generate first."))
  | Some session =>
      photos ← json_loads (Session.photos session);
      if bool_decide (photos = []) then
        emit (ReplyText
          (lit "I need photos first! Please send 1-4 reference photos using /generate."))
      else
        match _validate_prompt self prompt_text with
        | Some validation_error =>
            emit (ReplyText ([0x274c%N] ++ lit " " ++ validation_error))
        | None =>
            db_exec [Sqlite.Text (lit "generating"); Sqlite.Text prompt_text;
                     Sqlite.Integer user_id]
              (λ d, Database.update_user_state d now user_id (lit "generating")
                      {| Database.kw_photos := None;
                         Database.kw_current_prompt := Some prompt_text;
                         Database.kw_last_job_id := None |});;
            job_id ← db_call (λ d, Database.create_job d now user_id chat_id
                                     photos prompt_text);
            db_do (λ d, Database.update_user_state d now user_id (lit "generating")
                     {| Database.kw_photos := None;
                        Database.kw_current_prompt := None;
                        Database.kw_last_job_id := Some job_id |});;
            _start_generation self w now update job_id photos prompt_text
        end
  end.

End WithRepr.

End PromptHandler.

(** ** handlers/photo_handler.py *)

Module PhotoHandler.

Record t := {
  config : Config.t;
  photo_storage_path : str;
}.

(** [PhotoHandler.__init__]; [str(Path("./photos"))] is ["photos"]. *)
Definition __init__ (config : Config.t) : t :=
  {| config := config; photo_storage_path := lit "photos" |}.

Definition msg_full (count : Z) : str :=
  [0xe2%N; 0x161%N; 0xa0%N; 0xef%N; 0xb8%N]
  ++ lit " You already have " ++ str_of_Z count ++ lit " photos. "
  ++ lit "Please send your prompt first, or use /reset to start over.".

Definition msg_not_processed : str :=
  [0xe2%N; 0x152%N] ++ lit " Could not process the image. Please try again.".

Definition msg_saved (count max_photos remaining : Z) : str :=
  [0xe2%N; 0x153%N; 0x2026%N] ++ lit " Photo saved! (" ++ str_of_Z count
  ++ lit "/" ++ str_of_Z max_photos ++ lit ")" ++ [10%N] ++ [10%N]
  ++ lit "You can send " ++ str_of_Z remaining
  ++ lit " more photo(s), or send your prompt now.".

Definition msg_all_received : str :=
  [0xe2%N; 0x153%N; 0x2026%N] ++ lit " All photos received! "
  ++ [0xf0%N; 0x178%N; 0x201c%N; 0xb8%N] ++ [10%N] ++ [10%N]
  ++ lit "Now send me a prompt describing the video you want to create."
  ++ [10%N] ++ [10%N]
  ++ lit "Examples:" ++ [10%N]
  ++ [0xe2%N; 0x20ac%N; 0xa2%N] ++ lit " 'Dancing in a futuristic city at night'"
  ++ [10%N]
  ++ [0xe2%N; 0x20ac%N; 0xa2%N] ++ lit " 'Walking through Paris in the rain'"
  ++ [10%N]
  ++ [0xe2%N; 0x20ac%N; 0xa2%N] ++ lit " 'Presenting at a tech conference'"
  ++ [10%N] ++ [10%N]
  ++ lit "Use /templates to see more ideas!".

(** [str(file_path)] in [_save_photo]: the file name is made of the user,
    the creation time of the module's file and the index of the photo. *)
Definition photo_path (self : t) (tg : Telegram.env) (user_id index : Z) : str :=
  let filename :=
    str_of_Z user_id ++ lit "_" ++ str_of_Z (Telegram.getctime tg)
    ++ lit "_" ++ str_of_Z index ++ lit ".jpg" in
  joinpath (photo_storage_path self) filename.

(** [PhotoHandler._save_photo]: the path of the saved file, or [None] when
    the transport raised (the handler of the source prints the error). *)
Definition _save_photo (self : t) (tg : Telegram.env)
    (user_id : Z) (file_id : str) (index : Z) : M (option str) :=
  match Telegram.fetch tg file_id with
  | Some contents =>
      let file_path := photo_path self tg user_id index in
      write_file file_path contents;;
      ret (Some file_path)
  | None => ret None
  end.

(** [new_photos] after [if file_path: new_photos.append(file_path)]. *)
Definition append_if_truthy (file_path : option str) : list str :=
  match file_path with
  | Some p => if bool_decide (p = []) then [] else [p]
  | None => []
  end.

(** [PhotoHandler.handle_photos]. *)
Definition handle_photos (self : t) (tg : Telegram.env) (now : str)
    (update : Telegram.Update) : M () :=
  let user_id := Telegram.effective_user update in
  let max_photos := Config.max_photos (config self) in
  session ← db_get (λ d, Database.get_user_session d user_id);
  current_photos ←
    match session with
    | Some session => json_loads (Session.photos session)
    | None => ret []
    end;
  if len current_photos >=? max_photos then
    emit (ReplyText (msg_full (len current_photos)))
  else
    let message := Telegram.message update in
    new_photos ←
      match last (Telegram.photo message) with
      | Some file_id =>
          file_path ← _save_photo self tg user_id file_id (len current_photos);
          ret (append_if_truthy file_path)
      | None =>
          if bool_decide (default [] (Telegram.media_group_id message) ≠ []) then
            ret []
          else
            match Telegram.document message with
            | Some document =>
                match Telegram.mime_type document with
                | Some mime_type =>
                    if startswith mime_type (lit "image/") then
                      file_path ← _save_photo self tg user_id
                                    (Telegram.file_id document) (len current_photos);
                      ret (append_if_truthy file_path)
                    else ret []
                | None =>
                    raise (Error (lit "AttributeError")
                             (lit "'NoneType' object has no attribute 'startswith'"))
                end
            | None => ret []
            end
      end;
    if bool_decide (new_photos = []) then
      emit (ReplyText msg_not_processed)
    else
      let all_photos := current_photos ++ new_photos in
      db_do (λ d, Database.update_user_state d now user_id (lit "awaiting_prompt")
               {| Database.kw_photos := Some all_photos;
                  Database.kw_current_prompt := None;
                  Database.kw_last_job_id := None |});;
      let remaining := max_photos - len all_photos in
      if remaining >? 0 then
        emit (ReplyText (msg_saved (len all_photos) max_photos remaining))
      else
        emit (ReplyText msg_all_received).

(** The photos that [handle_photos] finds stored for a user: the decoded
    [photos] column of the session, and none when there is no session. *)
Definition stored_photos (d : Database.t) (user_id : Z) (photos : list str) : Prop :=
  match Database.get_user_session d user_id with
  | Some session => Session.photos session ≫= Json.loads = Some photos
  | None => photos = []
  end.

(** The file that [handle_photos] takes from a message: the largest size
    of its photo, or else, when the message is part of no album, its
    document when that is an image. *)
Definition image_of (message : Telegram.Message) (file_id : str) : Prop :=
  last (Telegram.photo message) = Some file_id
  ∨ (Telegram.photo message = []
     ∧ default [] (Telegram.media_group_id message) = []
     ∧ ∃ document mime_type,
         Telegram.document message = Some document
         ∧ Telegram.mime_type document = Some mime_type
         ∧ startswith mime_type (lit "image/") = true
         ∧ Telegram.file_id document = file_id).

End PhotoHandler.

(** ** Sample data *)

Module Examples.

Definition now : str := lit "2026-01-01 12:00:00".
Definition later : str := lit "2026-01-01 12:03:00".

Definition photos : list str := [lit "photos/7_1767268800_0.jpg"].
Definition prompt : str := lit "Dancing in a futuristic city at night".

(** One user, one job, just created. *)
Definition db_created : Database.t :=
  match Database.create_job Database._init_db now 7 70 photos prompt with
  | Return (d, _) => d
  | Raise _ => Database._init_db
  end.

(** The same job after a successful generation. *)
Definition db_completed : Database.t :=
  Database.update_job_status db_created later 1 (lit "completed")
    (Some (lit "prov-1")) (Some (lit "videos/prov-1.mp4")) None.

Definition job_completed : Job.t :=
  {| Job.id := 1; Job.user_id := 7; Job.chat_id := 70;
     Job.photos := Some (Json.dumps photos); Job.prompt := Some prompt;
     Job.status := Some (lit "completed");
     Job.seedance_job_id := Some (lit "prov-1");
     Job.video_path := Some (lit "videos/prov-1.mp4");
     Job.created_at := Some now; Job.completed_at := Some later;
     Job.error_message := None |}.

Definition session_generating : Session.t :=
  {| Session.user_id := 7; Session.state := Some (lit "generating");
     Session.photos := Some (Json.dumps photos);
     Session.current_prompt := Some prompt;
     Session.last_job_id := Some 1; Session.updated_at := Some now |}.


(** The surroundings of a call: the photo on disk, the job just created. *)
Definition io0 : io :=
  {| fs := {[ lit "photos/7_1767268800_0.jpg" := lit "JFIF" ]};
     db := db_created;
     trace := [] |}.

Definition live_config : Config.t :=
  {| Config.telegram_bot_token := lit "token";
     Config.admin_user_id := 1;
     Config.seedance_api_key := lit "key";
     Config.seedance_api_url := lit "https://api.seedance.example.com/v1";
     Config.mock_mode := false;
     Config.video_storage_path := lit "videos";
     Config.max_photos := 4;
     Config.generation_timeout := 300;
     Config.status_update_interval := 30 |}.

Definition live_client : Seedance.t := Seedance.__init__ live_config.
Definition mock_client : Seedance.t := Seedance.__init__ Config.defaults.

Definition request : Seedance.VideoGenerationRequest :=
  {| Seedance.prompt := prompt; Seedance.images := photos;
     Seedance.resolution := lit "1080p";
     Seedance.duration := None; Seedance.seed := None |}.

Definition accepted : Seedance.response (option str) :=
  {| Seedance.code := 200; Seedance.text := lit "{...}";
     Seedance.body := Return (Some (lit "prov-1")) |}.

Definition refusal : Seedance.response (option str) :=
  {| Seedance.code := 500; Seedance.text := lit "quota exceeded";
     Seedance.body := Raise (Error (lit "ContentTypeError") (lit "unexpected mimetype")) |}.

Definition status_reply (status : str) : Seedance.response Seedance.status_data :=
  {| Seedance.code := 200; Seedance.text := lit "{...}";
     Seedance.body :=
       Return {| Seedance.sd_status := Some status;
                 Seedance.sd_progress := Some 40;
                 Seedance.sd_video_url := None;
                 Seedance.sd_error := None |} |}.

Definition not_found {A} : Seedance.response A :=
  {| Seedance.code := 404; Seedance.text := lit "not found";
     Seedance.body := Raise (Error (lit "ContentTypeError") (lit "unexpected mimetype")) |}.

(** A provider that accepts the job and then reports [status] for ever. *)
Definition provider_reporting (status : str) : Seedance.provider :=
  {| Seedance.post_generate := Return accepted;
     Seedance.get_job := λ _, Return (status_reply status);
     Seedance.get_video := λ _, Return not_found;
     Seedance.uuid4_hex := lit "0123456789abcdef0123456789abcdef";
     Seedance.locale := Codec.utf_8 |}.

(** A provider that refuses the submission. *)
Definition provider_refusing : Seedance.provider :=
  {| Seedance.post_generate := Return refusal;
     Seedance.get_job := λ _, Return not_found;
     Seedance.get_video := λ _, Return not_found;
     Seedance.uuid4_hex := lit "0123456789abcdef0123456789abcdef";
     Seedance.locale := Codec.utf_8 |}.


(** The same provider for a process whose locale is [en_US.ISO-8859-1]. *)
Definition provider_latin_1 : Seedance.provider :=
  {| Seedance.post_generate := Return accepted;
     Seedance.get_job := λ _, Return (status_reply (lit "processing"));
     Seedance.get_video := λ _, Return not_found;
     Seedance.uuid4_hex := lit "0123456789abcdef0123456789abcdef";
     Seedance.locale := Codec.latin_1 |}.

(** A request whose prompt ends in the emoji U+1F3AC. *)
Definition request_emoji : Seedance.VideoGenerationRequest :=
  {| Seedance.prompt := lit "Dancing in a futuristic city at night " ++ [0x1f3ac%N];
     Seedance.images := photos;
     Seedance.resolution := lit "1080p";
     Seedance.duration := None; Seedance.seed := None |}.

Definition three_photos : list str :=
  [lit "photos/7_1767268800_0.jpg"; lit "photos/7_1767268800_1.jpg";
   lit "photos/7_1767268800_2.jpg"].

Definition four_photos : list str := three_photos ++ [lit "photos/7_1767268800_3.jpg"].

(** User 7 after [stored] photos and before the prompt. *)
Definition io_awaiting_prompt (stored : list str) : io :=
  {| fs := ∅;
     db := Database.update_user_state Database._init_db now 7 (lit "awaiting_prompt")
             {| Database.kw_photos := Some stored;
                Database.kw_current_prompt := None;
                Database.kw_last_job_id := None |};
     trace := [] |}.

(** A message from user 7 that carries one photo in two sizes. *)
Definition photo_update : Telegram.Update :=
  {| Telegram.effective_user := 7;
     Telegram.effective_chat := 70;
     Telegram.message :=
       {| Telegram.text := [];
          Telegram.photo := [lit "AgAD-small"; lit "AgAD-large"];
          Telegram.media_group_id := None;
          Telegram.document := None |} |}.

(** A message from user 7 that carries an image as a file. *)
Definition document_update : Telegram.Update :=
  {| Telegram.effective_user := 7;
     Telegram.effective_chat := 70;
     Telegram.message :=
       {| Telegram.text := [];
          Telegram.photo := [];
          Telegram.media_group_id := None;
          Telegram.document :=
            Some {| Telegram.file_id := lit "BQAD-file";
                    Telegram.mime_type := Some (lit "image/png") |} |} |}.

Definition transport : Telegram.env :=
  {| Telegram.fetch := λ _, Some (lit "JFIF"); Telegram.getctime := 1767268800 |}.

Definition photo_handler : PhotoHandler.t := PhotoHandler.__init__ Config.defaults.

(** The prompt of user 7, for whom job 1 was created from it. *)
Definition prompt_update : Telegram.Update :=
  {| Telegram.effective_user := 7;
     Telegram.effective_chat := 70;
     Telegram.message :=
       {| Telegram.text := prompt;
          Telegram.photo := [];
          Telegram.media_group_id := None;
          Telegram.document := None |} |}.

Definition prompt_handler : PromptHandler.t := PromptHandler.__init__ live_config.

(** [repr] on strings that hold no quote, backslash or unprintable
    character. *)
Definition repr_plain (s : str) : str := lit "'" ++ s ++ lit "'".


(** A download in two chunks. *)
Definition download : Seedance.response (list str) :=
  {| Seedance.code := 200; Seedance.text := [];
     Seedance.body := Return [lit "ftyp"; lit "mdat"] |}.



End Examples.

(** ** Vocabulary of the properties *)

Module Store.

(** The rows of [jobs] carry their key as [id], and the ids handed out so
    far are [1 .. jobs_seq]. *)
Definition jobs_keyed (d : Database.t) : Prop :=
  ∀ id j, Database.jobs d !! id = Some j →
          Job.id j = id ∧ 1 ≤ id ≤ Database.jobs_seq d.

(** The rows of [user_sessions] carry their key as [user_id]. *)
Definition sessions_keyed (d : Database.t) : Prop :=
  ∀ user_id s, Database.user_sessions d !! user_id = Some s →
               Session.user_id s = user_id.

Definition consistent (d : Database.t) : Prop :=
  0 ≤ Database.jobs_seq d ∧ jobs_keyed d ∧ sessions_keyed d.

(** The databases that the operations of [database.py] make of a fresh
    file. *)
Inductive reachable : Database.t → Prop :=
| reach_init : reachable Database._init_db
| reach_create_job d now user_id chat_id photos prompt d' job_id :
    reachable d →
    Database.create_job d now user_id chat_id photos prompt = Return (d', job_id) →
    reachable d'
| reach_update_job_status d now job_id status a b c :
    reachable d →
    reachable (Database.update_job_status d now job_id status a b c)
| reach_update_user_state d now user_id state kw :
    reachable d →
    reachable (Database.update_user_state d now user_id state kw)
| reach_clear_user_session d user_id :
    reachable d →
    reachable (Database.clear_user_session d user_id)
| reach_reset_user_generation_state d now user_id :
    reachable d →
    reachable (Database.reset_user_generation_state d now user_id).

End Store.

Module Budget.

(** The seconds spent in [asyncio.sleep] by a run of events. *)
Fixpoint slept (events : list event) : Z :=
  match events with
  | Sleep seconds :: rest => seconds + slept rest
  | _ :: rest => slept rest
  | [] => 0
  end.

(** The [GET] and [POST] requests in a run of events. *)
Fixpoint requests (events : list event) : nat :=
  match events with
  | HttpGet _ :: rest => S (requests rest)
  | HttpPost _ _ _ _ _ _ _ :: rest => S (requests rest)
  | _ :: rest => requests rest
  | [] => O
  end.

(** [s'] comes after [s] by [events] and writes to files only: the database
    is the same and no file is gone. *)
Definition follows (s s' : io) (events : list event) : Prop :=
  db s' = db s ∧ trace s' = trace s ++ events ∧ dom (fs s) ⊆ dom (fs s').

End Budget.

(** * Properties *)

Ltac nlia := zify; Z.to_euclidean_division_equations; lia.

Ltac ncases :=
  repeat match goal with
  | |- context [N.leb ?a ?b] => destruct (N.leb_spec a b)
  | |- context [N.ltb ?a ?b] => destruct (N.ltb_spec a b)
  | |- context [N.eqb ?a ?b] => destruct (N.eqb_spec a b)
  end.

(** ** Prompt validation *)

Section PromptValidation.

Import PromptHandler.

Variable config : Config.t.
Let self := __init__ config.

Lemma lstrip_app_non_space (s : str) (c : N) :
  is_space c = false → lstrip (s ++ [c]) = lstrip s ++ [c].
Proof.
  intros Hc. induction s as [|d s IH]; simpl.
  - by rewrite Hc.
  - destruct (is_space d); [exact IH | reflexivity].
Qed.

Lemma lstrip_head (s : str) :
  lstrip s = [] ∨ ∃ c s', lstrip s = c :: s' ∧ is_space c = false.
Proof.
  induction s as [|d s IH]; simpl; [by left|].
  destruct (is_space d) eqn:Hd; [exact IH | right; eauto].
Qed.

Lemma rstrip_cons_non_space (c : N) (s : str) :
  is_space c = false → rstrip (c :: s) = c :: rstrip s.
Proof.
  intros Hc. unfold rstrip. simpl rev.
  by rewrite lstrip_app_non_space, rev_app_distr.
Qed.

Lemma lstrip_fixed (c : N) (s : str) : is_space c = false → lstrip (c :: s) = c :: s.
Proof. intros Hc. simpl. by rewrite Hc. Qed.

Lemma lstrip_idem (s : str) : lstrip (lstrip s) = lstrip s.
Proof.
  destruct (lstrip_head s) as [-> | (c & s' & -> & Hc)]; [done|].
  by apply lstrip_fixed.
Qed.

Lemma rstrip_idem (s : str) : rstrip (rstrip s) = rstrip s.
Proof. unfold rstrip. by rewrite rev_involutive, lstrip_idem. Qed.

(** [strip] gives a string that [strip] leaves alone. *)
Lemma strip_idem (s : str) : strip (strip s) = strip s.
Proof.
  unfold strip.
  destruct (lstrip_head s) as [-> | (c & s' & -> & Hc)]; [done|].
  rewrite (rstrip_cons_non_space c s' Hc), (lstrip_fixed c _ Hc).
  by rewrite <- (rstrip_cons_non_space c s' Hc), rstrip_idem.
Qed.

Lemma msg_too_short_not_generic (prompt : str) :
  msg_too_short self prompt ≠ msg_generic.
Proof. intros H. apply (f_equal (take 2)) in H. discriminate H. Qed.

Lemma stoplist_short (w : str) : w ∈ stoplist → w ≠ [] ∧ len w < 10.
Proof.
  unfold stoplist. rewrite !elem_of_cons, elem_of_nil.
  intros [-> | [-> | [-> | [-> | []]]]]; split; (discriminate || reflexivity).
Qed.

Lemma validate_too_short (prompt : str) :
  prompt ≠ [] → len prompt < 10 →
  _validate_prompt self prompt = Some (msg_too_short self prompt).
Proof.
  intros Hne Hlen. unfold _validate_prompt. simpl.
  rewrite bool_decide_eq_false_2 by done.
  by rewrite (proj2 (Z.ltb_lt _ _) Hlen).
Qed.

Lemma validate_not_too_short (prompt : str) :
  10 ≤ len prompt →
  _validate_prompt self prompt
  = if len prompt >? 500 then Some (msg_too_long self prompt)
    else if bool_decide (strip prompt ∈ stoplist) then Some msg_generic
    else None.
Proof.
  intros Hlo. unfold _validate_prompt. simpl.
  rewrite bool_decide_eq_false_2
    by (intros ->; unfold len in Hlo; simpl in Hlo; lia).
  by rewrite (proj2 (Z.ltb_ge _ _) Hlo).
Qed.

Lemma validate_too_long (prompt : str) :
  500 < len prompt →
  _validate_prompt self prompt = Some (msg_too_long self prompt).
Proof.
  intros Hhi. rewrite validate_not_too_short by lia.
  destruct (len prompt >? 500) eqn:E; [reflexivity|].
  rewrite Z.gtb_ltb in E. apply Z.ltb_ge in E. lia.
Qed.

Lemma validate_in_range (prompt : str) :
  10 ≤ len prompt ≤ 500 →
  _validate_prompt self prompt
  = if bool_decide (strip prompt ∈ stoplist) then Some msg_generic else None.
Proof.
  intros [Hlo Hhi]. rewrite validate_not_too_short by exact Hlo.
  destruct (len prompt >? 500) eqn:E; [|reflexivity].
  rewrite Z.gtb_ltb in E. apply Z.ltb_lt in E. lia.
Qed.

(** C1 (as amended): validation applies its checks in order and the first one
    that fails decides: the empty prompt, then fewer than 10 characters, then
    more than 500, then a trimmed text on the stoplist; anything else is
    accepted.  The four stoplist words are themselves shorter than 10
    characters, so each is rejected by the length check, with the message for
    a prompt that is too short and not with the one for a generic prompt. *)
Theorem validate_prompt_first_failure_wins (prompt : str) :
  let result := _validate_prompt self prompt in
  (prompt = [] → result = Some msg_empty)
  ∧ (prompt ≠ [] → len prompt < 10 → result = Some (msg_too_short self prompt))
  ∧ (500 < len prompt → result = Some (msg_too_long self prompt))
  ∧ (10 ≤ len prompt ≤ 500 → strip prompt ∈ stoplist → result = Some msg_generic)
  ∧ (10 ≤ len prompt ≤ 500 → strip prompt ∉ stoplist → result = None)
  ∧ (prompt ∈ stoplist →
       result = Some (msg_too_short self prompt) ∧ result ≠ Some msg_generic).
Proof.
  cbv zeta. split; [|split; [|split; [|split; [|split]]]].
  - intros ->. reflexivity.
  - apply validate_too_short.
  - apply validate_too_long.
  - intros Hlen Hin. rewrite (validate_in_range prompt Hlen).
    by rewrite bool_decide_eq_true_2.
  - intros Hlen Hin. rewrite (validate_in_range prompt Hlen).
    by rewrite bool_decide_eq_false_2.
  - intros Hin. apply stoplist_short in Hin as [Hne Hlen].
    rewrite (validate_too_short prompt Hne Hlen). split; [reflexivity|].
    intros Heq. apply (msg_too_short_not_generic prompt). congruence.
Qed.

(** [handle_prompt] validates [text.strip()]: on such a prompt the stoplist
    check never decides. *)
Lemma validate_stripped_never_generic (text : str) :
  _validate_prompt self (strip text) ≠ Some msg_generic.
Proof.
  destruct (decide (strip text = [])) as [He|Hne].
  { rewrite He. discriminate. }
  destruct (Z.lt_ge_cases (len (strip text)) 10) as [Hlt|Hge].
  { rewrite (validate_too_short _ Hne Hlt). intros Heq.
    apply (msg_too_short_not_generic (strip text)). congruence. }
  destruct (Z.lt_ge_cases 500 (len (strip text))) as [Hlt|Hle].
  { rewrite (validate_too_long _ Hlt). intros Heq.
    apply (f_equal (λ o, take 3 <$> o)) in Heq. discriminate Heq. }
  rewrite validate_in_range by lia.
  rewrite bool_decide_eq_false_2; [discriminate|].
  rewrite strip_idem. intros Hin. apply stoplist_short in Hin. lia.
Qed.

End PromptValidation.

(** C1, counterexample: the prompt ["a"] is rejected, but as too short and
    not as generic; the length check comes first. *)
Lemma validate_prompt_a_is_too_short :
  let self := PromptHandler.__init__ Config.defaults in
  PromptHandler._validate_prompt self (lit "a")
    = Some (PromptHandler.msg_too_short self (lit "a"))
  ∧ PromptHandler._validate_prompt self (lit "a") ≠ Some PromptHandler.msg_generic.
Proof. split; [reflexivity | discriminate]. Qed.

(** The checks at work: a stoplist word padded to ten characters is generic,
    the bare word is too short. *)
Lemma validate_prompt_witness :
  let self := PromptHandler.__init__ Config.defaults in
  PromptHandler._validate_prompt self (lit "      test") = Some PromptHandler.msg_generic
  ∧ PromptHandler._validate_prompt self (lit "test")
    = Some (PromptHandler.msg_too_short self (lit "test")).
Proof.
  destruct (validate_prompt_first_failure_wins Config.defaults (lit "      test"))
    as (_ & _ & _ & Hgeneric & _).
  destruct (validate_prompt_first_failure_wins Config.defaults (lit "test"))
    as (_ & _ & _ & _ & _ & Hword).
  split.
  - apply Hgeneric; [split; discriminate | vm_compute; repeat constructor].
  - apply Hword. vm_compute. repeat constructor.
Defined.

(** ** The JSON text of a list of strings *)

Section JsonRoundTrip.

Import Json.
Local Open Scope N_scope.

Lemma hex_value_digit d : d < 16 → hex_value (hex_digit d) = Some d.
Proof.
  intros Hd. unfold hex_value, hex_digit.
  destruct (N.ltb_spec d 10); ncases; simpl; try lia; f_equal; lia.
Qed.

Lemma hex4_sum n :
  n < 65536 →
  (n / 4096 mod 16) * 4096 + (n / 256 mod 16) * 256 + (n / 16 mod 16) * 16 + n mod 16 = n.
Proof.
  intros Hn. zify. Z.to_euclidean_division_equations. lia.
Qed.

Lemma lor_shiftl_small x y : y < 1024 → N.lor (N.shiftl x 10) y = x * 1024 + y.
Proof.
  intros Hy.
  assert (Hland : N.land (N.shiftl x 10) y = 0).
  { apply N.bits_inj. intros i. rewrite N.land_spec, N.bits_0.
    destruct (N.lt_ge_cases i 10) as [Hi|Hi].
    - by rewrite N.shiftl_spec_low.
    - rewrite <- (N.mod_small y (2 ^ 10)) by exact Hy.
      rewrite N.mod_pow2_bits_high by exact Hi. apply andb_false_r. }
  rewrite <- N.lxor_lor by exact Hland.
  rewrite <- N.add_nocarry_lxor by exact Hland.
  by rewrite N.shiftl_mul_pow2.
Qed.

Lemma high_half c :
  0x10000 <= c → c < 0x110000 →
  N.lor 0xd800 (N.land (N.shiftr (c - 0x10000) 10) 0x3ff) = 0xd800 + (c - 0x10000) / 1024.
Proof.
  intros Hlo Hhi.
  change 0x3ff with (N.ones 10). rewrite N.land_ones, N.shiftr_div_pow2.
  change (2 ^ 10) with 1024.
  rewrite N.mod_small by (apply N.Div0.div_lt_upper_bound; lia).
  change 0xd800 with (N.shiftl 54 10) at 1.
  rewrite lor_shiftl_small by (apply N.Div0.div_lt_upper_bound; lia).
  reflexivity.
Qed.

Lemma low_half c :
  N.lor 0xdc00 (N.land (c - 0x10000) 0x3ff) = 0xdc00 + (c - 0x10000) mod 1024.
Proof.
  change 0x3ff with (N.ones 10). rewrite N.land_ones.
  change (2 ^ 10) with 1024.
  change 0xdc00 with (N.shiftl 55 10) at 1.
  rewrite lor_shiftl_small by (apply N.mod_lt; lia).
  reflexivity.
Qed.

Lemma decode_escape_u n rest :
  n < 65536 → decode_uXXXX (drop 2 (escape_u n ++ rest)) = Some (n, rest).
Proof.
  intros Hn. unfold escape_u, decode_uXXXX. simpl.
  rewrite !hex_value_digit by (apply N.mod_lt; lia). simpl.
  by rewrite hex4_sum.
Qed.

Lemma scan_plain fuel c rest :
  c ≠ 34 → c ≠ 92 → 32 <= c →
  scanstring_loop (S fuel) (c :: rest)
  = '(chars, tail) ← scanstring_loop fuel rest; Some (c :: chars, tail).
Proof.
  intros H1 H2 H3. simpl. ncases; try lia. reflexivity.
Qed.

Lemma scan_escape fuel esc char rest :
  esc ≠ 117 → backslash esc = Some char →
  scanstring_loop (S fuel) (92 :: esc :: rest)
  = '(chars, tail) ← scanstring_loop fuel rest; Some (char :: chars, tail).
Proof.
  intros H1 H2. simpl. destruct (N.eqb_spec esc 117); [done|]. by rewrite H2.
Qed.

Lemma scan_u fuel n rest :
  n < 65536 →
  scanstring_loop (S fuel) (escape_u n ++ rest)
  = '(char, rest3) ← after_escape n rest;
    '(chars, tail) ← scanstring_loop fuel rest3;
    Some (char :: chars, tail).
Proof.
  intros Hn.
  change (escape_u n ++ rest) with (92 :: 117 :: drop 2 (escape_u n ++ rest)).
  cbn [scanstring_loop]. change (92 =? 34) with false. change (92 =? 92) with true.
  change (117 =? 117) with true. cbv iota.
  rewrite decode_escape_u by exact Hn. reflexivity.
Qed.

Lemma after_escape_alone n tail : after_escape n (34 :: tail) = Some (n, 34 :: tail).
Proof.
  unfold after_escape. rewrite bool_decide_eq_false_2 by (destruct tail; discriminate).
  by rewrite andb_false_r.
Qed.

Lemma after_escape_no_pair n c' rest :
  is_code_point c' →
  is_high_surrogate n && is_low_surrogate c' = false →
  after_escape n (encode_char c' ++ rest) = Some (n, encode_char c' ++ rest).
Proof.
  unfold is_code_point. intros Hc' Hpair. unfold after_escape.
  destruct (is_high_surrogate n) eqn:Hn; [|done]. simpl in Hpair |- *.
  unfold encode_char in *.
  repeat match goal with
  | |- context [if ?b then _ else _] =>
      lazymatch b with
      | bool_decide _ => fail
      | is_low_surrogate _ => fail
      | _ => destruct b eqn:?
      end
  end; try (rewrite bool_decide_eq_false_2 by (intros ?; by simplify_eq/=); reflexivity).
  - (* an escape of the basic plane *)
    rewrite bool_decide_eq_true_2 by reflexivity.
    rewrite decode_escape_u by (by apply N.ltb_lt). simpl. by rewrite Hpair.
  - (* a pair: the first half is a high surrogate *)
    rewrite <- app_assoc.
    rewrite bool_decide_eq_true_2 by reflexivity.
    assert (0x10000 <= c') by (by apply N.ltb_ge).
    rewrite high_half by done.
    assert ((c' - 0x10000) / 1024 < 1024) by (apply N.Div0.div_lt_upper_bound; lia).
    rewrite decode_escape_u by lia. simpl.
    unfold is_low_surrogate. ncases; try (exfalso; nlia). reflexivity.
Qed.

Lemma str_ind2 (P : str → Prop) :
  P [] → (∀ c, P [c]) → (∀ c c' s, P s → P (c' :: s) → P (c :: c' :: s)) →
  ∀ s, P s.
Proof.
  intros Hnil Hone Hstep.
  assert (H : ∀ s, P s ∧ ∀ c, P (c :: s)); [|intros s; apply H].
  induction s as [|c' s [IH1 IH2]]; [by split|].
  split; [apply IH2|]. intros c. by apply Hstep.
Qed.

Lemma surrogate_is_escaped c :
  0xd800 <= c → c <= 0xdfff → encode_char c = escape_u c.
Proof.
  intros Hlo Hhi. unfold encode_char.
  ncases; try (exfalso; lia); reflexivity.
Qed.

Lemma scan_char fuel c s tail :
  is_code_point c → valid_str s →
  match s with
  | c' :: _ => is_high_surrogate c && is_low_surrogate c'
  | [] => false
  end = false →
  scanstring_loop (S fuel) (encode_char c ++ encode_body s ++ 34 :: tail)
  = '(chars, t) ← scanstring_loop fuel (encode_body s ++ 34 :: tail);
    Some (c :: chars, t).
Proof.
  intros Hc Hs Hjoin.
  unfold is_code_point in Hc. unfold encode_char.
  destruct (N.eqb_spec c 92) as [->|H92];
    [cbv iota; cbn [app]; by rewrite (scan_escape fuel 92 92)|].
  destruct (N.eqb_spec c 34) as [->|H34];
    [cbv iota; cbn [app]; by rewrite (scan_escape fuel 34 34)|].
  destruct ((32 <=? c) && (c <=? 126)) eqn:Hprint.
  { apply andb_true_iff in Hprint as [Hlo%N.leb_le _].
    cbn [app]. by rewrite scan_plain. }
  destruct (N.eqb_spec c 8) as [->|H8];
    [cbv iota; cbn [app]; by rewrite (scan_escape fuel 98 8)|].
  destruct (N.eqb_spec c 12) as [->|H12];
    [cbv iota; cbn [app]; by rewrite (scan_escape fuel 102 12)|].
  destruct (N.eqb_spec c 10) as [->|H10];
    [cbv iota; cbn [app]; by rewrite (scan_escape fuel 110 10)|].
  destruct (N.eqb_spec c 13) as [->|H13];
    [cbv iota; cbn [app]; by rewrite (scan_escape fuel 114 13)|].
  destruct (N.eqb_spec c 9) as [->|H9];
    [cbv iota; cbn [app]; by rewrite (scan_escape fuel 116 9)|].
  destruct (N.ltb_spec c 0x10000) as [Hbmp|Hsupp].
  - rewrite scan_u by exact Hbmp.
    replace (after_escape c (encode_body s ++ 34 :: tail))
      with (Some (c, encode_body s ++ 34 :: tail)); [reflexivity|].
    symmetry. destruct s as [|c' s'].
    + apply after_escape_alone.
    + change (encode_body (c' :: s')) with (encode_char c' ++ encode_body s').
      rewrite <- app_assoc. apply after_escape_no_pair; [by inversion Hs | done].
  - rewrite <- app_assoc.
    rewrite high_half, low_half by done.
    remember (c - 0x10000) as n eqn:Hn.
    assert (n / 1024 < 1024) by (apply N.Div0.div_lt_upper_bound; lia).
    assert (n mod 1024 < 1024) by (apply N.mod_lt; lia).
    rewrite scan_u by lia.
    unfold after_escape, joined.
    replace (is_high_surrogate (0xd800 + n / 1024)) with true
      by (unfold is_high_surrogate; ncases; try (exfalso; nlia); reflexivity).
    rewrite bool_decide_eq_true_2 by reflexivity.
    rewrite decode_escape_u by lia. cbn [mbind option_bind andb].
    replace (is_low_surrogate (0xdc00 + n mod 1024)) with true
      by (unfold is_low_surrogate; ncases; try (exfalso; nlia); reflexivity).
    cbn [mbind option_bind].
    replace (0xd800 + n / 1024 - 0xd800) with (n / 1024) by nlia.
    replace (0xdc00 + n mod 1024 - 0xdc00) with (n mod 1024) by nlia.
    rewrite lor_shiftl_small by done.
    replace (65536 + (n `div` 1024 * 1024 + n `mod` 1024)) with c by nlia.
    reflexivity.
Qed.

Lemma scan_joined fuel c c' rest :
  is_high_surrogate c = true → is_low_surrogate c' = true →
  scanstring_loop (S fuel) (encode_char c ++ encode_char c' ++ rest)
  = '(chars, t) ← scanstring_loop fuel rest; Some (joined c c' :: chars, t).
Proof.
  unfold is_high_surrogate, is_low_surrogate.
  intros [Hc1%N.leb_le Hc2%N.leb_le]%andb_true_iff
         [Hc'1%N.leb_le Hc'2%N.leb_le]%andb_true_iff.
  rewrite !surrogate_is_escaped by lia.
  rewrite scan_u by lia. unfold after_escape.
  replace (is_high_surrogate c) with true
    by (unfold is_high_surrogate; ncases; try (exfalso; lia); reflexivity).
  rewrite bool_decide_eq_true_2 by reflexivity.
  rewrite decode_escape_u by lia. cbn [mbind option_bind andb].
  replace (is_low_surrogate c') with true
    by (unfold is_low_surrogate; ncases; try (exfalso; lia); reflexivity).
  reflexivity.
Qed.

Lemma join_surrogates_cons c c' s :
  join_surrogates (c :: c' :: s)
  = if is_high_surrogate c && is_low_surrogate c'
    then joined c c' :: join_surrogates s
    else c :: join_surrogates (c' :: s).
Proof. reflexivity. Qed.

Lemma has_surrogate_pair_cons c c' s :
  has_surrogate_pair (c :: c' :: s)
  = (is_high_surrogate c && is_low_surrogate c') || has_surrogate_pair (c' :: s).
Proof. reflexivity. Qed.

Lemma length_join_surrogates s : (length (join_surrogates s) ≤ length s)%nat.
Proof.
  induction s as [| c | c c' s IH1 IH2] using str_ind2; [done..|].
  rewrite join_surrogates_cons.
  destruct (is_high_surrogate c && is_low_surrogate c').
  - simpl. lia.
  - rewrite !length_cons in *. lia.
Qed.

(** The decoder reads what the encoder wrote between the quotes as the same
    string with its surrogate pairs joined. *)
Lemma scan_encode_body_joins s :
  valid_str s →
  ∀ fuel tail, (length s < fuel)%nat →
    scanstring_loop fuel (encode_body s ++ 34 :: tail) = Some (join_surrogates s, tail).
Proof.
  induction s as [| c | c c' s IH1 IH2] using str_ind2;
    intros Hvalid fuel tail Hfuel;
    (destruct fuel as [|fuel]; [simpl in Hfuel; lia|]).
  - reflexivity.
  - apply Forall_cons in Hvalid as [Hc _].
    change (encode_body [c]) with (encode_char c ++ encode_body []).
    rewrite <- app_assoc. rewrite scan_char by (done || constructor).
    destruct fuel; [simpl in Hfuel; lia | reflexivity].
  - apply Forall_cons in Hvalid as [Hc Hvalid]. pose proof Hvalid as Hvalid'.
    apply Forall_cons in Hvalid' as [Hc' Hs].
    rewrite join_surrogates_cons.
    destruct (is_high_surrogate c && is_low_surrogate c') eqn:Hjoin.
    + apply andb_true_iff in Hjoin as [Hhigh Hlow].
      change (encode_body (c :: c' :: s))
        with (encode_char c ++ encode_char c' ++ encode_body s).
      rewrite <- !app_assoc. rewrite scan_joined by done.
      simpl in Hfuel. by rewrite IH1 by (done || lia).
    + change (encode_body (c :: c' :: s))
        with (encode_char c ++ encode_body (c' :: s)).
      rewrite <- app_assoc. rewrite scan_char by done.
      simpl in Hfuel. by rewrite IH2 by (done || simpl; lia).
Qed.

Lemma join_surrogates_id s : has_surrogate_pair s = false → join_surrogates s = s.
Proof.
  induction s as [| c | c c' s IH1 IH2] using str_ind2; [done..|].
  intros Hpair. rewrite has_surrogate_pair_cons in Hpair.
  apply orb_false_iff in Hpair as [Hjoin Hrest].
  rewrite join_surrogates_cons, Hjoin. f_equal. by apply IH2.
Qed.

Lemma join_surrogates_shorter s :
  has_surrogate_pair s = true → (length (join_surrogates s) < length s)%nat.
Proof.
  induction s as [| c | c c' s IH1 IH2] using str_ind2; [done..|].
  intros Hpair. rewrite has_surrogate_pair_cons in Hpair.
  rewrite join_surrogates_cons.
  destruct (is_high_surrogate c && is_low_surrogate c') eqn:Hjoin.
  - pose proof (length_join_surrogates s). simpl. lia.
  - simpl in Hpair. specialize (IH2 Hpair). rewrite !length_cons in *. lia.
Qed.

Lemma join_surrogates_fixed s : join_surrogates s = s ↔ has_surrogate_pair s = false.
Proof.
  split; [|apply join_surrogates_id].
  intros Heq. destruct (has_surrogate_pair s) eqn:Hpair; [|done].
  apply join_surrogates_shorter in Hpair. rewrite Heq in Hpair. lia.
Qed.

Lemma length_encode_body s : (length s ≤ length (encode_body s))%nat.
Proof.
  induction s as [|c s IH]; [done|].
  change (encode_body (c :: s)) with (encode_char c ++ encode_body s).
  rewrite length_app. simpl.
  assert (1 ≤ length (encode_char c))%nat; [|lia].
  unfold encode_char, escape_u.
  repeat (match goal with |- context [if ?b then _ else _] => destruct b end);
    simpl; lia.
Qed.

Lemma scanstring_encode_body s tail :
  valid_str s →
  scanstring (encode_body s ++ 34 :: tail) = Some (join_surrogates s, tail).
Proof.
  intros Hvalid. apply scan_encode_body_joins; [done|].
  rewrite length_app. pose proof (length_encode_body s). simpl. lia.
Qed.

Lemma join_items_cons x y l :
  join_items (x :: y :: l) = x ++ [44; 32] ++ join_items (y :: l).
Proof. reflexivity. Qed.

Lemma array_loop_join_items l :
  ∀ x, Forall valid_str (x :: l) →
  ∀ fuel tail, (length l < fuel)%nat →
    array_loop fuel (join_items (encode_str <$> x :: l) ++ 93 :: tail)
    = Some (join_surrogates <$> x :: l, tail).
Proof.
  induction l as [|y l IH]; intros x Hall fuel tail Hfuel;
    (destruct fuel as [|fuel]; [simpl in Hfuel; lia|]);
    apply Forall_cons in Hall as [Hx Hl].
  - change (join_items (encode_str <$> [x]) ++ 93 :: tail)
      with (34 :: (encode_body x ++ [34]) ++ 93 :: tail).
    rewrite <- app_assoc. cbn [array_loop app].
    change (34 =? 34) with true. cbv iota.
    rewrite scanstring_encode_body by done. reflexivity.
  - rewrite fmap_cons, fmap_cons, join_items_cons, <- fmap_cons.
    change (encode_str x) with (34 :: encode_body x ++ [34]).
    cbn [app]. rewrite <- !app_assoc. cbn [array_loop app].
    change (34 =? 34) with true. cbv iota.
    rewrite scanstring_encode_body by done.
    cbn [mbind option_bind skip_ws is_ws].
    change (is_ws 44) with false. cbv iota.
    change (44 =? 93) with false. change (44 =? 44) with true. cbv iota.
    replace (skip_ws (32 :: join_items (encode_str <$> y :: l) ++ 93 :: tail))
      with (join_items (encode_str <$> y :: l) ++ 93 :: tail).
    + simpl in Hfuel. rewrite IH by (done || lia). reflexivity.
    + destruct l; reflexivity.
Qed.

Lemma length_join_items l :
  (length l ≤ length (join_items (encode_str <$> l)))%nat.
Proof.
  induction l as [|x l IH]; [done|].
  destruct l as [|y l].
  - simpl. lia.
  - rewrite fmap_cons, fmap_cons, join_items_cons, <- fmap_cons.
    rewrite !length_app. simpl in *. lia.
Qed.

(** What [loads] reads from what [dumps] wrote: the same strings with their
    surrogate pairs joined. *)
Lemma loads_dumps_joins l :
  Forall valid_str l → loads (dumps l) = Some (join_surrogates <$> l).
Proof.
  intros Hall. destruct l as [|x l]; [reflexivity|].
  unfold dumps, loads.
  change (skip_ws ([91] ++ join_items (encode_str <$> x :: l) ++ [93]))
    with (91 :: (join_items (encode_str <$> x :: l) ++ [93])).
  change (91 =? 91) with true. cbv iota.
  assert (Hhead : ∃ rest, join_items (encode_str <$> x :: l) ++ [93] = 34 :: rest).
  { destruct l; eexists; reflexivity. }
  destruct Hhead as [rest Hrest].
  rewrite Hrest. cbn [skip_ws]. change (is_ws 34) with false. cbv iota.
  change (34 =? 93) with false. cbv iota. rewrite <- Hrest.
  rewrite array_loop_join_items; [reflexivity | done |].
  rewrite length_app. pose proof (length_join_items (x :: l)). simpl in *. lia.
Qed.

Lemma join_surrogates_all l :
  join_surrogates <$> l = l ↔ Forall (λ s, has_surrogate_pair s = false) l.
Proof.
  induction l as [|x l IH]; [by split; [constructor|]|].
  rewrite fmap_cons, Forall_cons, <- IH, <- join_surrogates_fixed.
  split; [by intros [= -> ->] | by intros [-> ->]].
Qed.

(** The list comes back as it was written exactly when no string in it holds
    a surrogate pair. *)
Lemma loads_dumps_iff l :
  Forall valid_str l →
  loads (dumps l) = Some l ↔ Forall (λ s, has_surrogate_pair s = false) l.
Proof.
  intros Hall. rewrite (loads_dumps_joins l Hall), <- join_surrogates_all.
  split; [by intros [= ->] | by intros ->].
Qed.

End JsonRoundTrip.

(** ** Text, encodings and parameters *)

Section Text.

Local Open Scope N_scope.

Lemma is_text_valid (s : str) : is_text s → Json.valid_str s.
Proof.
  intros Hs. eapply Forall_impl; [exact Hs|]. by intros c [Hc _].
Qed.

Lemma is_text_no_pair (s : str) : is_text s → Json.has_surrogate_pair s = false.
Proof.
  induction 1 as [|c s [_ Hc] _ IH]; [done|].
  destruct s as [|c' s]; [done|].
  change (Json.has_surrogate_pair (c :: c' :: s))
    with (Json.is_high_surrogate c && Json.is_low_surrogate c'
          || Json.has_surrogate_pair (c' :: s)).
  rewrite IH, orb_false_r. apply andb_false_intro1.
  revert Hc. unfold is_surrogate, Json.is_high_surrogate.
  ncases; simpl; try done; lia.
Qed.

Lemma loads_dumps_text (l : list str) :
  Forall is_text l → Json.loads (Json.dumps l) = Some l.
Proof.
  intros Hl. apply loads_dumps_iff.
  - eapply Forall_impl; [exact Hl | apply is_text_valid].
  - eapply Forall_impl; [exact Hl | apply is_text_no_pair].
Qed.

Lemma lit_is_text (s : string) : is_text (lit s).
Proof.
  unfold lit, is_text. apply Forall_fmap, Forall_forall. intros a _. simpl.
  assert (N_of_ascii a < 256) by apply N_ascii_bounded.
  split; [lia|]. unfold is_surrogate. ncases; simpl; try done; lia.
Qed.

Lemma app_is_text (s1 s2 : str) : is_text s1 → is_text s2 → is_text (s1 ++ s2).
Proof. apply Forall_app_2. Qed.

Lemma joinpath_is_text (directory name : str) :
  is_text directory → is_text name → is_text (joinpath directory name).
Proof.
  intros Hd Hn. unfold joinpath. case_bool_decide; [done|].
  destruct (endswith directory (lit "/")); repeat apply app_is_text;
    auto using lit_is_text.
Qed.

Lemma first_error_all encoding (s : str) start :
  forallb (Codec.encodes encoding) s = true →
  Codec.first_error encoding s start = None.
Proof.
  revert start. induction s as [|c s IH]; intros start Hs; [done|].
  simpl in Hs. apply andb_prop in Hs as [Hc Hs].
  cbn [Codec.first_error]. rewrite Hc. by apply IH.
Qed.

Lemma encode_error_all encoding (s : str) :
  forallb (Codec.encodes encoding) s = true → Codec.encode_error encoding s = None.
Proof. intros Hs. unfold Codec.encode_error. by rewrite first_error_all. Qed.

Lemma first_error_some encoding (s : str) start :
  forallb (Codec.encodes encoding) s = false →
  is_Some (Codec.first_error encoding s start).
Proof.
  revert start. induction s as [|c s IH]; intros start Hs; [done|].
  cbn [Codec.first_error]. simpl in Hs.
  destruct (Codec.encodes encoding c); [by apply IH | done].
Qed.

(** A string has an encoding exactly when each of its code points has. *)
Lemma encode_error_none encoding (s : str) :
  Codec.encode_error encoding s = None ↔ forallb (Codec.encodes encoding) s = true.
Proof.
  split; [|apply encode_error_all].
  destruct (forallb (Codec.encodes encoding) s) eqn:Hs; [done|].
  destruct (first_error_some encoding s 0 Hs) as [[[start badchar] count] Hfirst].
  unfold Codec.encode_error. by rewrite Hfirst.
Qed.

Lemma encode_error_text (s : str) :
  is_text s → Codec.encode_error Codec.utf_8 s = None.
Proof.
  intros Hs. apply encode_error_all, forallb_forall.
  intros c Hc%list_elem_of_In. unfold is_text in Hs. rewrite Forall_forall in Hs.
  destruct (Hs c Hc) as [_ Hsur]. simpl. by rewrite Hsur.
Qed.

Lemma encode_error_ascii (s : str) :
  Forall (λ c, c < 128) s → Codec.encode_error Codec.utf_8 s = None.
Proof.
  intros Hs. apply encode_error_all, forallb_forall.
  intros c Hc%list_elem_of_In. rewrite Forall_forall in Hs.
  specialize (Hs c Hc). simpl. unfold is_surrogate. ncases; simpl; try done; lia.
Qed.

Lemma hex_digit_ascii (d : N) : d < 16 → Json.hex_digit d < 128.
Proof. intros Hd. unfold Json.hex_digit. ncases; lia. Qed.

Lemma escape_u_ascii (n : N) : Forall (λ c, c < 128) (Json.escape_u n).
Proof.
  unfold Json.escape_u.
  repeat (apply Forall_cons_2; [first [done | apply hex_digit_ascii; nlia]|]).
  constructor.
Qed.

Lemma encode_char_ascii (c : N) : Forall (λ d, d < 128) (Json.encode_char c).
Proof.
  unfold Json.encode_char.
  destruct (c =? 92); [repeat (apply Forall_cons_2; [done|]); constructor|].
  destruct (c =? 34); [repeat (apply Forall_cons_2; [done|]); constructor|].
  destruct ((32 <=? c) && (c <=? 126)) eqn:Hprint.
  { apply andb_prop in Hprint as [_ Hle%N.leb_le].
    apply Forall_cons_2; [lia | constructor]. }
  repeat match goal with
  | |- context [if ?b =? ?n then _ else _] =>
      destruct (b =? n); [repeat (apply Forall_cons_2; [done|]); constructor|]
  end.
  destruct (c <? 65536); [apply escape_u_ascii|].
  apply Forall_app_2; apply escape_u_ascii.
Qed.

(** [json.dumps] with [ensure_ascii] writes ASCII only. *)
Lemma dumps_ascii (l : list str) : Forall (λ c, c < 128) (Json.dumps l).
Proof.
  assert (Hstr : ∀ x, Forall (λ c, c < 128) (Json.encode_str x)).
  { intros x. unfold Json.encode_str, Json.encode_body.
    apply Forall_cons_2; [done|]. apply Forall_app_2.
    - apply Forall_bind, Forall_forall. intros c _. apply encode_char_ascii.
    - apply Forall_cons_2; [done | constructor]. }
  assert (Hitems : Forall (λ c, c < 128) (Json.join_items (Json.encode_str <$> l))).
  { induction l as [|x l IH]; [constructor|].
    destruct l as [|y l]; [apply Hstr|].
    change (Json.join_items (Json.encode_str <$> x :: y :: l))
      with (Json.encode_str x ++ [44; 32]
            ++ Json.join_items (Json.encode_str <$> y :: l)).
    apply Forall_app_2; [apply Hstr|]. apply Forall_app_2; [|exact IH].
    repeat (apply Forall_cons_2; [done|]). constructor. }
  unfold Json.dumps. apply Forall_app_2.
  - apply Forall_cons_2; [done | constructor].
  - apply Forall_app_2; [exact Hitems|].
    apply Forall_cons_2; [done | constructor].
Qed.

End Text.

(** ** The job store *)

Section JobStore.

Import Database.

Implicit Types (d : Database.t) (j : Job.t) (s : Session.t).





(** C9: [reset_user_generation_state] on an existing session makes it idle
    with no photos and an empty prompt, and keeps [last_job_id]. *)
Theorem reset_user_generation_state_keeps_last_job d now user_id s :
  get_user_session d user_id = Some s →
  ∃ s', get_user_session (reset_user_generation_state d now user_id) user_id = Some s'
        ∧ Session.state s' = Some (lit "idle")
        ∧ Session.photos s' ≫= Json.loads = Some []
        ∧ Session.current_prompt s' = Some []
        ∧ Session.last_job_id s' = Session.last_job_id s.
Proof.
  unfold get_user_session, reset_user_generation_state. intros Hs. simpl.
  rewrite lookup_alter. case_decide; [|done]. rewrite Hs. simpl.
  eexists. split; [reflexivity|]. repeat split; reflexivity.
Qed.

(** [create_job] on parameters that convert: the id is the next of the
    sequence, the job is stored under it as given, and the session of the
    user is replaced. *)
Lemma create_job_returns d now user_id chat_id photos prompt :
  Sqlite.fits user_id = true → Sqlite.fits chat_id = true →
  Codec.encode_error Codec.utf_8 prompt = None →
  let job_id := jobs_seq d + 1 in
  create_job d now user_id chat_id photos prompt
  = Return
      ({| jobs :=
            <[job_id :=
                {| Job.id := job_id; Job.user_id := user_id; Job.chat_id := chat_id;
                   Job.photos := Some (Json.dumps photos);
                   Job.prompt := Some prompt;
                   Job.status := Some (lit "pending");
                   Job.seedance_job_id := None; Job.video_path := None;
                   Job.created_at := Some now; Job.completed_at := None;
                   Job.error_message := None |}]> (jobs d);
          jobs_seq := job_id;
          user_sessions :=
            <[user_id :=
                {| Session.user_id := user_id;
                   Session.state := Some (lit "generating");
                   Session.photos := Some (Json.dumps photos);
                   Session.current_prompt := Some prompt;
                   Session.last_job_id := Some job_id;
                   Session.updated_at := Some now |}]> (user_sessions d) |},
       job_id).
Proof.
  intros Huser Hchat Hprompt job_id. unfold create_job.
  cbn [Sqlite.bind Sqlite.bind_param].
  by rewrite Huser, Hchat, (encode_error_ascii _ (dumps_ascii photos)), Hprompt.
Qed.

(** C3: for ids that fit in 64 bits, a prompt that is text and photo paths
    in which no high surrogate is immediately followed by a low surrogate
    (no path that the file system takes has one), [create_job] returns an
    id, and [get_job] with this id gives a job whose prompt is the one
    passed and whose photos column decodes to the list passed. *)
Theorem create_job_get_job_round_trip d now user_id chat_id photos prompt :
  Sqlite.fits user_id = true → Sqlite.fits chat_id = true →
  is_text prompt →
  Forall Json.valid_str photos →
  Forall (λ path, Json.has_surrogate_pair path = false) photos →
  ∃ d' job_id j,
    create_job d now user_id chat_id photos prompt = Return (d', job_id)
    ∧ get_job d' job_id = Some j
    ∧ Job.prompt j = Some prompt
    ∧ Job.photos j ≫= Json.loads = Some photos.
Proof.
  intros Huser Hchat Hprompt Hvalid Hpairs.
  rewrite (create_job_returns d now user_id chat_id photos prompt Huser Hchat
             (encode_error_text prompt Hprompt)).
  eexists _, _, _. split; [reflexivity|].
  unfold get_job. cbn [jobs]. rewrite lookup_insert_eq.
  split; [reflexivity|]. split; [reflexivity|].
  cbn [Job.photos mbind option_bind]. by apply loads_dumps_iff.
Qed.

(** When a parameter does not convert, [create_job] raises and stores
    nothing: an id outside 64 bits gives [OverflowError], and a prompt with
    a surrogate code point gives [UnicodeEncodeError]. *)
Lemma create_job_refuses d now user_id chat_id photos prompt :
  (Sqlite.fits user_id = false ∨ Sqlite.fits chat_id = false →
     create_job d now user_id chat_id photos prompt
     = Raise (Error (lit "OverflowError")
                (lit "Python int too large to convert to SQLite INTEGER")))
  ∧ (Sqlite.fits user_id = true → Sqlite.fits chat_id = true →
     ∀ msg, Codec.encode_error Codec.utf_8 prompt = Some msg →
       create_job d now user_id chat_id photos prompt
       = Raise (Error (lit "UnicodeEncodeError") msg)).
Proof.
  unfold create_job. cbn [Sqlite.bind Sqlite.bind_param]. split.
  - intros [Huser|Hchat].
    + by rewrite Huser.
    + rewrite Hchat. by destruct (Sqlite.fits user_id).
  - intros Huser Hchat msg Hprompt.
    by rewrite Huser, Hchat, (encode_error_ascii _ (dumps_ascii photos)), Hprompt.
Qed.

End JobStore.

Lemma get_job_db_completed :
  Database.get_job Examples.db_completed 1 = Some Examples.job_completed.
Proof. reflexivity. Qed.

Lemma get_user_session_db_completed :
  Database.get_user_session Examples.db_completed 7 = Some Examples.session_generating.
Proof. reflexivity. Qed.

Lemma create_job_get_job_round_trip_witness :
  ∃ d' job_id j,
    Database.create_job Database._init_db Examples.now 7 70
      Examples.photos Examples.prompt = Return (d', job_id)
    ∧ Database.get_job d' job_id = Some j
    ∧ Job.prompt j = Some Examples.prompt
    ∧ Job.photos j ≫= Json.loads = Some Examples.photos.
Proof.
  apply (create_job_get_job_round_trip Database._init_db Examples.now 7 70
           Examples.photos Examples.prompt).
  - reflexivity.
  - reflexivity.
  - apply lit_is_text.
  - apply Forall_cons_2; [apply is_text_valid, lit_is_text | constructor].
  - apply Forall_cons_2; [reflexivity | constructor].
Defined.




Lemma reset_user_generation_state_keeps_last_job_witness :
  ∃ s', Database.get_user_session
          (Database.reset_user_generation_state Examples.db_completed Examples.later 7) 7
          = Some s'
        ∧ Session.state s' = Some (lit "idle")
        ∧ Session.photos s' ≫= Json.loads = Some []
        ∧ Session.current_prompt s' = Some []
        ∧ Session.last_job_id s' = Some 1.
Proof.
  apply (reset_user_generation_state_keeps_last_job Examples.db_completed
           Examples.later 7 Examples.session_generating).
  reflexivity.
Defined.

(** ** The live backend *)

Section LiveBackend.

Import Seedance.

Variables (self : Seedance.t) (w : provider).

Local Abbreviation status_url := (Seedance.status_url self).
Local Abbreviation waiting_rounds := (Seedance.waiting_rounds self).
Local Abbreviation submission := (Seedance.submission self).

Lemma log_nil s : log s [] = s.
Proof. destruct s. unfold log. simpl. by rewrite app_nil_r. Qed.

Lemma log_log s e1 e2 : log (log s e1) e2 = log s (e1 ++ e2).
Proof. unfold log. simpl. by rewrite app_assoc. Qed.

Lemma poll_waiting_step job_id remaining attempt s :
  keeps_waiting (get_job w attempt) →
  poll self w job_id (S remaining) attempt s
  = poll self w job_id remaining (S attempt)
      (log s [HttpGet (status_url job_id); Sleep 5]).
Proof.
  intros (r & Hr & Hwait).
  cbn [poll]. unfold mbind, M_bind, bind, emit, lift. simpl. rewrite Hr.
  destruct Hwait as [Hcode | (data & Hdata & Hstatus)].
  - destruct (Z.eqb_spec (code r) 200); [done|].
    unfold log, status_url. simpl. by rewrite <- app_assoc.
  - destruct (Z.eqb_spec (code r) 200).
    + rewrite Hdata. simpl.
      destruct Hstatus as [-> | ->]; simpl;
        unfold log, status_url; simpl; by rewrite <- app_assoc.
    + unfold log, status_url. simpl. by rewrite <- app_assoc.
Qed.

Lemma poll_waiting job_id k :
  ∀ remaining attempt s,
    (∀ n, (attempt ≤ n < attempt + k)%nat → keeps_waiting (get_job w n)) →
    poll self w job_id (k + remaining) attempt s
    = poll self w job_id remaining (attempt + k) (log s (waiting_rounds job_id k)).
Proof.
  induction k as [|k IH]; intros remaining attempt s Hwait.
  - unfold waiting_rounds. simpl. by rewrite log_nil, Nat.add_0_r.
  - change (S k + remaining)%nat with (S (k + remaining)).
    rewrite poll_waiting_step by (apply Hwait; lia).
    rewrite IH by (intros n Hn; apply Hwait; lia).
    rewrite log_log. by replace (S attempt + k)%nat with (attempt + S k)%nat by lia.
Qed.


Lemma real_generate_refused request s r :
  post_generate w = Return r → code r ≠ 200 →
  _real_generate self w request s
  = (Return (failed_response (Some []) (lit "API error: " ++ text r)),
     log s [submission request s]).
Proof.
  intros Hr Hcode. unfold _real_generate, mbind, M_bind, bind, emit, lift, open_existing.
  cbn -[poll]. rewrite Hr. by destruct (Z.eqb_spec (code r) 200).
Qed.

Lemma real_generate_accepted request s r job_id :
  post_generate w = Return r → code r = 200 → body r = Return job_id →
  _real_generate self w request s
  = poll self w job_id max_attempts 0 (log s [submission request s]).
Proof.
  intros Hr Hcode Hbody.
  unfold _real_generate, mbind, M_bind, bind, emit, lift, open_existing.
  cbn -[poll]. rewrite Hr, Hcode, Hbody. reflexivity.
Qed.

Lemma poll_exhausted job_id attempt s :
  poll self w job_id 0 attempt s
  = (Return (failed_response job_id (lit "Timeout waiting for generation")), s).
Proof. reflexivity. Qed.

Lemma poll_reports_failed job_id remaining attempt s reply data :
  get_job w attempt = Return reply → code reply = 200 → body reply = Return data →
  sd_status data = Some (lit "failed") →
  poll self w job_id (S remaining) attempt s
  = (Return (failed_response job_id (default (lit "Unknown error") (sd_error data))),
     log s [HttpGet (status_url job_id)]).
Proof.
  intros Hreply Hcode Hbody Hstatus.
  cbn [poll]. unfold mbind, M_bind, bind, emit, lift. simpl.
  rewrite Hreply, Hcode, Hbody, Hstatus. reflexivity.
Qed.

Lemma poll_unknown_status job_id remaining attempt s reply data :
  get_job w attempt = Return reply → code reply = 200 → body reply = Return data →
  JobStatus_of (default (lit "pending") (sd_status data)) = None →
  poll self w job_id (S remaining) attempt s
  = (Raise (ValueError (default (lit "pending") (sd_status data))),
     log s [HttpGet (status_url job_id)]).
Proof.
  intros Hreply Hcode Hbody Hstatus.
  cbn [poll]. unfold mbind, M_bind, bind, emit, lift. simpl.
  rewrite Hreply, Hcode, Hbody, Hstatus. reflexivity.
Qed.

(** A download that fails after the provider reported the job completed is
    answered with the status the provider gave, [COMPLETED], and an error
    message. *)
Lemma poll_failed_download job_id remaining attempt s reply data download :
  get_job w attempt = Return reply → code reply = 200 → body reply = Return data →
  sd_status data = Some (lit "completed") →
  get_video w (sd_video_url data) = Return download → code download ≠ 200 →
  poll self w job_id (S remaining) attempt s
  = (Return {| job_id := job_id; status := COMPLETED; video_url := None;
               error_message := Some (lit "Failed to download video");
               progress := None |},
     log s [HttpGet (status_url job_id); HttpGet (fmt (sd_video_url data))]).
Proof.
  intros Hreply Hcode Hbody Hstatus Hdownload Hfailed.
  cbn [poll]. unfold mbind, M_bind, bind, emit, lift. simpl.
  rewrite Hreply, Hcode, Hbody, Hstatus. simpl. rewrite Hdownload.
  rewrite (proj2 (Z.eqb_neq _ _) Hfailed).
  unfold log, ret, status_url. simpl. rewrite <- ?app_assoc. reflexivity.
Qed.

(** C5: when every status request finds the job [processing], the live
    backend answers [failed] with the timeout message after exactly 60
    status requests, each followed by a wait of five seconds. *)
Theorem live_backend_times_out_after_max_attempts request s r job_id :
  mock_mode self = false →
  post_generate w = Return r → code r = 200 → body r = Return job_id →
  (∀ n, (n < max_attempts)%nat →
     ∃ reply data, get_job w n = Return reply ∧ code reply = 200
                   ∧ body reply = Return data
                   ∧ sd_status data = Some (lit "processing")) →
  generate_video self w request s
  = (Return (failed_response job_id (lit "Timeout waiting for generation")),
     log s (submission request s :: waiting_rounds job_id max_attempts)).
Proof.
  intros Hlive Hr Hcode Hbody Hprocessing.
  unfold generate_video. rewrite Hlive.
  rewrite (real_generate_accepted request s r job_id Hr Hcode Hbody).
  replace max_attempts with (max_attempts + 0)%nat at 1 by lia.
  rewrite poll_waiting.
  - rewrite poll_exhausted, log_log. reflexivity.
  - intros n Hn. destruct (Hprocessing n ltac:(lia)) as (reply & data & Hg & Hc & Hb & Hs).
    exists reply. split; [done|]. right. exists data. split; [done|].
    right. by rewrite Hs.
Qed.

(** C4 (as amended): the live backend answers [failed] with a message when
    the submission is answered with a status other than 200, when the
    provider reports the job failed, and when 60 status requests pass without
    a final status; a status value that [JobStatus] does not know raises
    [ValueError], which is not caught and reaches the caller. *)
Theorem live_backend_failures request s :
  mock_mode self = false →
  (∀ r, post_generate w = Return r → code r ≠ 200 →
     generate_video self w request s
     = (Return (failed_response (Some []) (lit "API error: " ++ text r)),
        log s [submission request s]))
  ∧ (∀ r job_id k,
       post_generate w = Return r → code r = 200 → body r = Return job_id →
       (∀ n, (n < k)%nat → keeps_waiting (get_job w n)) →
       let s' := log s (submission request s :: waiting_rounds job_id k) in
       (k = max_attempts →
          generate_video self w request s
          = (Return (failed_response job_id (lit "Timeout waiting for generation")), s'))
       ∧ ((k < max_attempts)%nat →
          ∀ reply data,
            get_job w k = Return reply → code reply = 200 → body reply = Return data →
            (sd_status data = Some (lit "failed") →
               generate_video self w request s
               = (Return (failed_response job_id
                            (default (lit "Unknown error") (sd_error data))),
                  log s' [HttpGet (status_url job_id)]))
            ∧ (JobStatus_of (default (lit "pending") (sd_status data)) = None →
               generate_video self w request s
               = (Raise (ValueError (default (lit "pending") (sd_status data))),
                  log s' [HttpGet (status_url job_id)])))).
Proof.
  intros Hlive. unfold generate_video. rewrite Hlive. split.
  - intros r Hr Hcode. by apply real_generate_refused.
  - intros r job_id k Hr Hcode Hbody Hwait.
    set (s' := log s (submission request s :: waiting_rounds job_id k)).
    rewrite (real_generate_accepted request s r job_id Hr Hcode Hbody).
    assert (Hprefix : ∀ remaining,
              poll self w job_id (k + remaining) 0 (log s [submission request s])
              = poll self w job_id remaining k s').
    { intros remaining. rewrite poll_waiting by (intros n Hn; apply Hwait; lia).
      by rewrite log_log. }
    split.
    + intros ->. replace max_attempts with (max_attempts + 0)%nat at 1 by lia.
      by rewrite Hprefix.
    + intros Hk reply data Hreply Hrcode Hrbody.
      replace max_attempts with (k + S (max_attempts - S k))%nat by lia.
      rewrite Hprefix. split; intros Hstatus.
      * by apply (poll_reports_failed _ _ _ _ reply data).
      * by apply (poll_unknown_status _ _ _ _ reply data).
Qed.

End LiveBackend.

(** C4, counterexample: the provider reports the status ["queued"], which is
    none of the four that [JobStatus] knows; the call ends in a [ValueError]
    and not in a result. *)
Lemma unknown_status_raises :
  (Seedance.generate_video Examples.live_client
     (Examples.provider_reporting (lit "queued")) Examples.request Examples.io0).1
  = Raise (ValueError (lit "queued")).
Proof. reflexivity. Qed.

Lemma live_backend_failures_witness :
  (Seedance.generate_video Examples.live_client Examples.provider_refusing
     Examples.request Examples.io0).1
  = Return (Seedance.failed_response (Some []) (lit "API error: quota exceeded"))
  ∧ (Seedance.generate_video Examples.live_client
       (Examples.provider_reporting (lit "processing"))
       Examples.request Examples.io0).1
    = Return (Seedance.failed_response (Some (lit "prov-1"))
                (lit "Timeout waiting for generation")).
Proof.
  split.
  - destruct (live_backend_failures Examples.live_client Examples.provider_refusing
                Examples.request Examples.io0 eq_refl) as [Hrefused _].
    by rewrite (Hrefused Examples.refusal eq_refl ltac:(discriminate)).
  - destruct (live_backend_failures Examples.live_client
                (Examples.provider_reporting (lit "processing"))
                Examples.request Examples.io0 eq_refl) as [_ Hpolls].
    destruct (Hpolls Examples.accepted (Some (lit "prov-1")) Seedance.max_attempts
                eq_refl eq_refl eq_refl) as [Htimeout _].
    + intros n _. exists (Examples.status_reply (lit "processing")).
      split; [reflexivity|]. right. eexists. split; [reflexivity|]. by right.
    + by rewrite (Htimeout eq_refl).
Defined.

Lemma live_backend_times_out_after_max_attempts_witness :
  Seedance.generate_video Examples.live_client
    (Examples.provider_reporting (lit "processing")) Examples.request Examples.io0
  = (Return (Seedance.failed_response (Some (lit "prov-1"))
               (lit "Timeout waiting for generation")),
     log Examples.io0
       (Seedance.submission Examples.live_client Examples.request Examples.io0
        :: Seedance.waiting_rounds Examples.live_client (Some (lit "prov-1")) 60)).
Proof.
  apply (live_backend_times_out_after_max_attempts Examples.live_client
           (Examples.provider_reporting (lit "processing"))
           Examples.request Examples.io0 Examples.accepted (Some (lit "prov-1")));
    try reflexivity.
  intros n _. eexists _, _. repeat split; reflexivity.
Defined.

(** ** The simulated backend *)

Section MockBackend.

Import Seedance.

Lemma joinpath_not_empty directory name : name ≠ [] → joinpath directory name ≠ [].
Proof.
  intros Hname. unfold joinpath.
  case_bool_decide; [done|].
  destruct (endswith directory (lit "/"));
    intros Heq; apply app_eq_nil in Heq as [_ Heq]; [done|].
  by apply app_eq_nil in Heq as [_ Heq].
Qed.

Lemma placeholder_text_contains_prompt job_id (request : VideoGenerationRequest) :
  contains (placeholder_text job_id request) (prompt request).
Proof.
  unfold placeholder_text, contains.
  exists (lit "MOCK VIDEO PLACEHOLDER" ++ [10%N]
          ++ lit "====================" ++ [10%N]
          ++ lit "Job ID: " ++ job_id ++ [10%N]
          ++ lit "Prompt: ").
  eexists. rewrite <- !app_assoc. reflexivity.
Qed.

Section Placeholder.

Variables (self : Seedance.t) (w : provider) (request : VideoGenerationRequest).

Let provider_id : str := lit "mock_" ++ take 16 (uuid4_hex w).
Let path : str := joinpath (video_storage_path self) (provider_id ++ lit ".mock").
Let contents : str := placeholder_text provider_id request.

(** The simulated backend when the placeholder can be written. *)
Lemma mock_generate_writes (s : io) :
  Codec.encode_error (locale w) contents = None →
  _mock_generate self w request s
  = (Return {| job_id := Some provider_id; status := COMPLETED;
               video_url := Some path; error_message := None;
               progress := Some 100 |},
     {| fs := <[path := contents]> (fs s); db := db s;
        trace := trace s ++ [Sleep 1; WriteFile path contents] |}).
Proof.
  intros Hencodes. unfold _mock_generate, write_text.
  fold provider_id. fold path. fold contents. rewrite Hencodes.
  unfold mbind, M_bind, bind, emit, write_file, ret. cbn [fs db trace].
  by rewrite <- app_assoc.
Qed.

(** The simulated backend when the placeholder cannot be encoded: the file
    is left empty and the exception of [write_text] reaches the caller. *)
Lemma mock_generate_raises (s : io) msg :
  Codec.encode_error (locale w) contents = Some msg →
  _mock_generate self w request s
  = (Raise (Error (lit "UnicodeEncodeError") msg),
     {| fs := <[path := []]> (fs s); db := db s;
        trace := trace s ++ [Sleep 1; WriteFile path []] |}).
Proof.
  intros Hencodes. unfold _mock_generate, write_text.
  fold provider_id. fold path. fold contents. rewrite Hencodes.
  unfold mbind, M_bind, bind, emit, write_file, raise. cbn [fs db trace].
  by rewrite <- app_assoc.
Qed.

End Placeholder.

(** C6 (as amended): when the encoding of the locale can encode the
    placeholder text, the simulated backend answers [completed] with the
    path of a file that it has written and that holds the prompt; when it
    cannot, [write_text] raises [UnicodeEncodeError], which reaches the
    caller, and the file is left empty.  Whatever the simulated backend
    returns is [completed]. *)
Theorem mock_backend_completes (self : Seedance.t) (w : provider)
    (request : VideoGenerationRequest) (s : io) :
  mock_mode self = true →
  let provider_id := lit "mock_" ++ take 16 (uuid4_hex w) in
  let path := joinpath (video_storage_path self) (provider_id ++ lit ".mock") in
  let contents := placeholder_text provider_id request in
  (Codec.encode_error (locale w) contents = None →
     ∃ response s',
       generate_video self w request s = (Return response, s')
       ∧ status response = COMPLETED
       ∧ video_url response = Some path
       ∧ path ≠ []
       ∧ fs s' !! path = Some contents
       ∧ contains contents (prompt request))
  ∧ (∀ msg, Codec.encode_error (locale w) contents = Some msg →
       ∃ s',
         generate_video self w request s
         = (Raise (Error (lit "UnicodeEncodeError") msg), s')
         ∧ fs s' !! path = Some [])
  ∧ (∀ response s',
       generate_video self w request s = (Return response, s') →
       status response = COMPLETED).
Proof.
  intros Hmock provider_id path contents.
  unfold generate_video. rewrite Hmock. split; [|split].
  - intros Hencodes. rewrite mock_generate_writes by exact Hencodes.
    eexists _, _. split; [reflexivity|]. cbn [status video_url fs].
    split; [reflexivity|]. split; [reflexivity|]. split.
    + apply joinpath_not_empty. intros Heq. discriminate Heq.
    + split; [apply lookup_insert_eq | apply placeholder_text_contains_prompt].
  - intros msg Hencodes. rewrite (mock_generate_raises _ _ _ _ msg) by exact Hencodes.
    eexists. split; [reflexivity|]. cbn [fs]. apply lookup_insert_eq.
  - intros response s'.
    destruct (Codec.encode_error (locale w) contents) as [msg|] eqn:Hencodes.
    + by rewrite (mock_generate_raises _ _ _ _ msg).
    + rewrite mock_generate_writes by exact Hencodes. by intros [= <- _].
Qed.

End MockBackend.

Lemma mock_backend_completes_witness :
  (∃ response s',
     Seedance.generate_video Examples.mock_client
       (Examples.provider_reporting (lit "processing")) Examples.request Examples.io0
     = (Return response, s')
     ∧ Seedance.status response = Seedance.COMPLETED
     ∧ Seedance.video_url response = Some (lit "videos/mock_0123456789abcdef.mock")
     ∧ lit "videos/mock_0123456789abcdef.mock" ≠ []
     ∧ fs s' !! lit "videos/mock_0123456789abcdef.mock"
       = Some (Seedance.placeholder_text (lit "mock_0123456789abcdef") Examples.request)
     ∧ contains (Seedance.placeholder_text (lit "mock_0123456789abcdef") Examples.request)
         (Seedance.prompt Examples.request))
  ∧ (∃ s',
       Seedance.generate_video Examples.mock_client Examples.provider_latin_1
         Examples.request_emoji Examples.io0
       = (Raise (Error (lit "UnicodeEncodeError")
                   (lit "'latin-1' codec can't encode character '\U0001f3ac' in position 120: ordinal not in range(256)")),
          s')
       ∧ fs s' !! lit "videos/mock_0123456789abcdef.mock" = Some []).
Proof.
  split.
  - apply (mock_backend_completes Examples.mock_client
             (Examples.provider_reporting (lit "processing"))
             Examples.request Examples.io0 eq_refl).
    reflexivity.
  - apply (mock_backend_completes Examples.mock_client Examples.provider_latin_1
             Examples.request_emoji Examples.io0 eq_refl).
    reflexivity.
Defined.

(** C6, counterexample: under ISO 8859-1 a prompt with an emoji makes the
    simulated backend raise; it returns no result and leaves an empty
    file. *)
Lemma mock_backend_raises_on_emoji :
  let result :=
    Seedance.generate_video Examples.mock_client Examples.provider_latin_1
      Examples.request_emoji Examples.io0 in
  result.1
  = Raise (Error (lit "UnicodeEncodeError")
             (lit "'latin-1' codec can't encode character '\U0001f3ac' in position 120: ordinal not in range(256)"))
  ∧ (∀ response, result.1 ≠ Return response)
  ∧ fs result.2 !! lit "videos/mock_0123456789abcdef.mock" = Some [].
Proof.
  split; [reflexivity|]. split; [discriminate|].
  apply (lookup_insert_eq (M := gmap str)).
Qed.

(** ** Photo intake *)

Section PhotoIntake.

Import PhotoHandler.

Variables (self : PhotoHandler.t) (tg : Telegram.env) (now : str).

Lemma photo_path_not_empty user_id index : photo_path self tg user_id index ≠ [].
Proof.
  unfold photo_path. apply joinpath_not_empty.
  intros Heq. repeat (apply app_eq_nil in Heq as [_ Heq]). discriminate Heq.
Qed.

Lemma json_loads_stored column photos s :
  column ≫= Json.loads = Some photos → json_loads column s = (Return photos, s).
Proof.
  unfold json_loads. destruct column as [text|]; [|done]. simpl.
  by intros ->.
Qed.

Lemma current_photos_stored (update : Telegram.Update) s current :
  stored_photos (db s) (Telegram.effective_user update) current →
  match Database.get_user_session (db s) (Telegram.effective_user update) with
  | Some session => json_loads (Session.photos session)
  | None => ret []
  end s = (Return current, s).
Proof.
  unfold stored_photos.
  destruct (Database.get_user_session _ _) as [session|].
  - apply json_loads_stored.
  - by intros ->.
Qed.

Lemma handle_photos_start update s current :
  stored_photos (db s) (Telegram.effective_user update) current →
  handle_photos self tg now update s
  = (if len current >=? Config.max_photos (config self) then
       emit (ReplyText (msg_full (len current)))
     else
       let user_id := Telegram.effective_user update in
       let message := Telegram.message update in
       new_photos ←
         match last (Telegram.photo message) with
         | Some file_id =>
             file_path ← _save_photo self tg user_id file_id (len current);
             ret (append_if_truthy file_path)
         | None =>
             if bool_decide (default [] (Telegram.media_group_id message) ≠ []) then
               ret []
             else
               match Telegram.document message with
               | Some document =>
                   match Telegram.mime_type document with
                   | Some mime_type =>
                       if startswith mime_type (lit "image/") then
                         file_path ← _save_photo self tg user_id
                                       (Telegram.file_id document) (len current);
                         ret (append_if_truthy file_path)
                       else ret []
                   | None =>
                       raise (Error (lit "AttributeError")
                                (lit "'NoneType' object has no attribute 'startswith'"))
                   end
               | None => ret []
               end
         end;
       if bool_decide (new_photos = []) then
         emit (ReplyText msg_not_processed)
       else
         let all_photos := current ++ new_photos in
         db_do (λ d, Database.update_user_state d now user_id (lit "awaiting_prompt")
                  {| Database.kw_photos := Some all_photos;
                     Database.kw_current_prompt := None;
                     Database.kw_last_job_id := None |});;
         let remaining := Config.max_photos (config self) - len all_photos in
         if remaining >? 0 then
           emit (ReplyText (msg_saved (len all_photos) (Config.max_photos (config self))
                              remaining))
         else
           emit (ReplyText msg_all_received)) s.
Proof.
  intros Hstored. unfold handle_photos.
  unfold mbind at 1, M_bind at 1, bind at 1. unfold db_get at 1. cbv beta iota.
  unfold mbind at 1, M_bind at 1, bind at 1.
  rewrite (current_photos_stored update s current Hstored). reflexivity.
Qed.


Lemma len_app_one (current : list str) (path : str) :
  len (current ++ [path]) = len current + 1.
Proof. unfold len. rewrite length_app. simpl. lia. Qed.

Lemma photo_path_is_text user_id index :
  is_text (photo_storage_path self) → is_text (photo_path self tg user_id index).
Proof.
  intros Hstorage. unfold photo_path, str_of_Z.
  apply joinpath_is_text; [exact Hstorage|].
  repeat apply app_is_text; apply lit_is_text.
Qed.

(** Below the limit, an image that the transport delivers is written to the
    next path of the user and appended to the stored list. *)
Lemma handle_photos_saves update s current file_id contents :
  let user_id := Telegram.effective_user update in
  let max_photos := Config.max_photos (config self) in
  let path := photo_path self tg user_id (len current) in
  let all_photos := current ++ [path] in
  stored_photos (db s) user_id current →
  len current < max_photos →
  image_of (Telegram.message update) file_id →
  Telegram.fetch tg file_id = Some contents →
  handle_photos self tg now update s
  = (Return (),
     {| fs := <[path := contents]> (fs s);
        db := Database.update_user_state (db s) now user_id (lit "awaiting_prompt")
                {| Database.kw_photos := Some all_photos;
                   Database.kw_current_prompt := None;
                   Database.kw_last_job_id := None |};
        trace := trace s
                 ++ [WriteFile path contents;
                     ReplyText
                       (if bool_decide (len all_photos = max_photos)
                        then msg_all_received
                        else msg_saved (len all_photos) max_photos
                               (max_photos - len all_photos))] |}).
Proof.
  intros user_id max_photos path all_photos Hstored Hroom Himage Hfetch.
  rewrite (handle_photos_start update s current Hstored).
  fold max_photos user_id.
  replace (len current >=? max_photos) with false
    by (symmetry; rewrite Z.geb_leb; apply Z.leb_gt; lia).
  cbv zeta.
  assert (Hsave : _save_photo self tg user_id file_id (len current)
                  = (write_file path contents;; ret (Some path))).
  { unfold _save_photo. by rewrite Hfetch. }
  assert (Hreply :
    (if max_photos - len all_photos >? 0
     then emit (ReplyText (msg_saved (len all_photos) max_photos
                             (max_photos - len all_photos)))
     else emit (ReplyText msg_all_received))
    = emit (ReplyText
              (if bool_decide (len all_photos = max_photos)
               then msg_all_received
               else msg_saved (len all_photos) max_photos
                      (max_photos - len all_photos)))).
  { assert (Hlen : len all_photos = len current + 1) by apply len_app_one.
    case_bool_decide as Hreached.
    - replace (max_photos - len all_photos >? 0) with false; [done|].
      symmetry. rewrite Z.gtb_ltb. apply Z.ltb_ge. lia.
    - replace (max_photos - len all_photos >? 0) with true; [done|].
      symmetry. rewrite Z.gtb_ltb. apply Z.ltb_lt. lia. }
  destruct Himage
    as [Hlast | (Hphoto & Hgroup & document & mime_type & Hdoc & Hmime & Himg & Hid)].
  - rewrite Hlast, Hsave.
    unfold mbind, M_bind, bind, write_file, mret, M_ret, ret, append_if_truthy.
    cbv beta iota.
    rewrite (bool_decide_eq_false_2 (path = [])) by apply photo_path_not_empty.
    rewrite (bool_decide_eq_false_2 ([path] = [])) by discriminate.
    unfold db_do, emit. cbn [fs db trace]. fold all_photos.
    unfold emit in Hreply. rewrite Hreply. cbn [fs db trace].
    by rewrite <- app_assoc.
  - rewrite Hphoto. cbn [last]. rewrite Hgroup.
    rewrite (bool_decide_eq_false_2 ([] ≠ [])) by (intros Hne; by apply Hne).
    rewrite Hdoc, Hmime, Himg, Hid, Hsave.
    unfold mbind, M_bind, bind, write_file, mret, M_ret, ret, append_if_truthy.
    cbv beta iota.
    rewrite (bool_decide_eq_false_2 (path = [])) by apply photo_path_not_empty.
    rewrite (bool_decide_eq_false_2 ([path] = [])) by discriminate.
    unfold db_do, emit. cbn [fs db trace]. fold all_photos.
    unfold emit in Hreply. rewrite Hreply. cbn [fs db trace].
    by rewrite <- app_assoc.
Qed.

Lemma msg_all_received_asks_for_prompt :
  contains msg_all_received
    (lit "Now send me a prompt describing the video you want to create.").
Proof.
  unfold msg_all_received, contains.
  exists ([0xe2%N; 0x153%N; 0x2026%N] ++ lit " All photos received! "
          ++ [0xf0%N; 0x178%N; 0x201c%N; 0xb8%N] ++ [10%N] ++ [10%N]).
  eexists. rewrite <- !app_assoc. reflexivity.
Qed.

(** C7: at [max_photos] stored photos a further photo is turned away with
    the advice to send the prompt or to reset, and nothing stored changes;
    below [max_photos] an image that the transport delivers, whether it
    comes as a photo or as a file, is saved and appended to the stored
    list, and the reply is the one that asks for the prompt exactly when the
    list has reached [max_photos]. *)
Theorem handle_photos_respects_max_photos (update : Telegram.Update) (s : io)
    (current : list str) :
  let user_id := Telegram.effective_user update in
  let max_photos := Config.max_photos (config self) in
  stored_photos (db s) user_id current →
  (max_photos ≤ len current →
     handle_photos self tg now update s
     = (Return (), log s [ReplyText (msg_full (len current))])
     ∧ contains (msg_full (len current))
         (lit "Please send your prompt first, or use /reset to start over."))
  ∧ (len current < max_photos →
     ∀ file_id contents,
       image_of (Telegram.message update) file_id →
       Telegram.fetch tg file_id = Some contents →
       let path := photo_path self tg user_id (len current) in
       let all_photos := current ++ [path] in
       ∃ s' session,
         handle_photos self tg now update s = (Return (), s')
         ∧ Database.get_user_session (db s') user_id = Some session
         ∧ Session.photos session = Some (Json.dumps all_photos)
         ∧ (Forall is_text current → is_text (photo_storage_path self) →
            stored_photos (db s') user_id all_photos)
         ∧ Session.state session = Some (lit "awaiting_prompt")
         ∧ fs s' !! path = Some contents
         ∧ trace s'
           = trace s
             ++ [WriteFile path contents;
                 ReplyText
                   (if bool_decide (len all_photos = max_photos)
                    then msg_all_received
                    else msg_saved (len all_photos) max_photos
                           (max_photos - len all_photos))])
  ∧ contains msg_all_received
      (lit "Now send me a prompt describing the video you want to create.").
Proof.
  intros user_id max_photos Hstored. split; [|split].
  - intros Hfull. split.
    + rewrite (handle_photos_start update s current Hstored).
      fold max_photos.
      replace (len current >=? max_photos) with true
        by (symmetry; rewrite Z.geb_leb; by apply Z.leb_le).
      reflexivity.
    + unfold msg_full, contains.
      exists ([0xe2%N; 0x161%N; 0xa0%N; 0xef%N; 0xb8%N]
              ++ lit " You already have " ++ str_of_Z (len current) ++ lit " photos. "),
             [].
      rewrite app_nil_r, <- !app_assoc. reflexivity.
  - intros Hroom file_id contents Himage Hfetch path all_photos.
    rewrite (handle_photos_saves update s current file_id contents
               Hstored Hroom Himage Hfetch).
    fold user_id max_photos path all_photos.
    assert (Hsession :
      ∃ session,
        Database.get_user_session
          (Database.update_user_state (db s) now user_id (lit "awaiting_prompt")
             {| Database.kw_photos := Some all_photos;
                Database.kw_current_prompt := None;
                Database.kw_last_job_id := None |}) user_id = Some session
        ∧ Session.photos session = Some (Json.dumps all_photos)
        ∧ Session.state session = Some (lit "awaiting_prompt")).
    { unfold Database.get_user_session, Database.update_user_state.
      cbn [Database.user_sessions Database.kw_photos].
      rewrite lookup_insert_eq.
      destruct (Database.user_sessions (db s) !! user_id); eauto. }
    destruct Hsession as (session & Hsession & Hphotos & Hstate).
    eexists _, session. split; [reflexivity|]. cbn [fs db trace].
    unfold stored_photos. rewrite Hsession.
    split; [reflexivity|]. split; [exact Hphotos|]. split.
    { intros Hcurrent Hstorage. rewrite Hphotos. cbn [mbind option_bind].
      apply loads_dumps_text, Forall_app_2; [exact Hcurrent|].
      apply Forall_cons_2; [by apply photo_path_is_text | constructor]. }
    split; [exact Hstate|]. split; [apply lookup_insert_eq | reflexivity].
  - apply msg_all_received_asks_for_prompt.
Qed.

End PhotoIntake.

Lemma handle_photos_respects_max_photos_witness :
  (PhotoHandler.handle_photos Examples.photo_handler Examples.transport Examples.later
     Examples.photo_update (Examples.io_awaiting_prompt Examples.four_photos)
   = (Return (),
      log (Examples.io_awaiting_prompt Examples.four_photos)
        [ReplyText (PhotoHandler.msg_full 4)]))
  ∧ (∃ s' session,
      PhotoHandler.handle_photos Examples.photo_handler Examples.transport Examples.later
        Examples.document_update (Examples.io_awaiting_prompt Examples.three_photos)
      = (Return (), s')
      ∧ Database.get_user_session (db s') 7 = Some session
      ∧ Session.photos session = Some (Json.dumps Examples.four_photos)
      ∧ PhotoHandler.stored_photos (db s') 7 Examples.four_photos
      ∧ Session.state session = Some (lit "awaiting_prompt")
      ∧ fs s' !! lit "photos/7_1767268800_3.jpg" = Some (lit "JFIF")
      ∧ trace s'
        = [WriteFile (lit "photos/7_1767268800_3.jpg") (lit "JFIF");
           ReplyText PhotoHandler.msg_all_received])
  ∧ contains PhotoHandler.msg_all_received
      (lit "Now send me a prompt describing the video you want to create.").
Proof.
  split; [|split].
  - destruct (handle_photos_respects_max_photos Examples.photo_handler
                Examples.transport Examples.later Examples.photo_update
                (Examples.io_awaiting_prompt Examples.four_photos)
                Examples.four_photos eq_refl) as [Hfull _].
    exact (proj1 (Hfull ltac:(discriminate))).
  - destruct (handle_photos_respects_max_photos Examples.photo_handler
                Examples.transport Examples.later Examples.document_update
                (Examples.io_awaiting_prompt Examples.three_photos)
                Examples.three_photos eq_refl) as (_ & Hroom & _).
    destruct (Hroom eq_refl (lit "BQAD-file") (lit "JFIF"))
      as (s' & session & Hrun & Hsession & Hphotos & Hstored & Hrest).
    + right. split; [reflexivity|]. split; [reflexivity|].
      eexists _, _. repeat split; reflexivity.
    + reflexivity.
    + exists s', session. split; [exact Hrun|]. split; [exact Hsession|].
      split; [exact Hphotos|]. split; [|exact Hrest].
      apply Hstored; [|apply lit_is_text].
      repeat (apply Forall_cons_2; [apply lit_is_text|]). constructor.
  - exact (proj2 (proj2 (handle_photos_respects_max_photos Examples.photo_handler
                Examples.transport Examples.later Examples.photo_update
                (Examples.io_awaiting_prompt Examples.four_photos)
                Examples.four_photos eq_refl))).
Defined.

(** ** The outcome of a generation *)

Section GenerationOutcome.

Import PromptHandler.

Variables (repr : str → str) (self : PromptHandler.t) (w : Seedance.provider)
  (now : str) (update : Telegram.Update).




End GenerationOutcome.

(** C8 at a failing input: the provider refuses the submission with
    ["quota exceeded"].  The job ends as failed and the session is deleted,
    but the job's error message is the text of a [NameError], not the
    message of the backend, which only the first of the two edits of the
    status message shows. *)
Theorem failed_generation_loses_backend_message :
  let final :=
    PromptHandler._start_generation Examples.repr_plain Examples.prompt_handler
      Examples.provider_refusing Examples.later Examples.prompt_update
      1 Examples.photos Examples.prompt Examples.io0 in
  final.1 = Return ()
  ∧ Job.status <$> Database.get_job (db final.2) 1 = Some (Some (lit "failed"))
  ∧ Job.error_message <$> Database.get_job (db final.2) 1
    = Some (Some (lit "name 'user_id' is not defined"))
  ∧ Job.error_message <$> Database.get_job (db final.2) 1
    ≠ Some (Some (lit "API error: quota exceeded"))
  ∧ Database.get_user_session (db final.2) 7 = None
  ∧ drop 2 (trace final.2)
    = [EditText (PromptHandler.msg_failed (Some (lit "API error: quota exceeded")));
       EditText (PromptHandler.msg_error (lit "name 'user_id' is not defined"))].
Proof. repeat split; (reflexivity || discriminate). Qed.

(** ** More about the job store *)

Section StoreInvariant.

Import Database Store.

Implicit Types (d : Database.t).

Lemma consistent_init : consistent _init_db.
Proof.
  split; [done|]. split; intros k x Hx; simpl in Hx; by rewrite lookup_empty in Hx.
Qed.

(** What [create_job] returns when it returns. *)
Lemma create_job_inv d now user_id chat_id photos prompt d' job_id :
  create_job d now user_id chat_id photos prompt = Return (d', job_id) →
  job_id = jobs_seq d + 1
  ∧ d' = {| jobs :=
              <[job_id :=
                  {| Job.id := job_id; Job.user_id := user_id;
                     Job.chat_id := chat_id;
                     Job.photos := Some (Json.dumps photos);
                     Job.prompt := Some prompt;
                     Job.status := Some (lit "pending");
                     Job.seedance_job_id := None; Job.video_path := None;
                     Job.created_at := Some now; Job.completed_at := None;
                     Job.error_message := None |}]> (jobs d);
            jobs_seq := job_id;
            user_sessions :=
              <[user_id :=
                  {| Session.user_id := user_id;
                     Session.state := Some (lit "generating");
                     Session.photos := Some (Json.dumps photos);
                     Session.current_prompt := Some prompt;
                     Session.last_job_id := Some job_id;
                     Session.updated_at := Some now |}]> (user_sessions d) |}.
Proof.
  unfold create_job. destruct (Sqlite.bind _); [|done].
  by intros [= <- <-].
Qed.

Lemma consistent_create_job d now user_id chat_id photos prompt d' job_id :
  create_job d now user_id chat_id photos prompt = Return (d', job_id) →
  consistent d → consistent d'.
Proof.
  intros [-> ->]%create_job_inv (Hseq & Hjobs & Hsessions).
  split; [simpl; lia|]. split.
  - intros id j. simpl. rewrite lookup_insert. case_decide as Hid.
    + intros [= <-]. simpl. lia.
    + intros Hj. destruct (Hjobs id j Hj). lia.
  - intros u s. simpl. rewrite lookup_insert. case_decide as Hu.
    + by intros [= <-].
    + apply Hsessions.
Qed.

Lemma consistent_update_job_status d now job_id status a b c :
  consistent d → consistent (update_job_status d now job_id status a b c).
Proof.
  intros (Hseq & Hjobs & Hsessions). unfold update_job_status.
  split; [done|]. split; [|done].
  intros id j. simpl. rewrite lookup_alter. case_decide as Hid; [subst id|apply Hjobs].
  destruct (jobs d !! job_id) as [j0|] eqn:Hj0; simpl; [|done].
  intros [= <-]. destruct (Hjobs job_id j0 Hj0). by case_bool_decide.
Qed.

Lemma consistent_update_user_state d now user_id state kw :
  consistent d → consistent (update_user_state d now user_id state kw).
Proof.
  intros (Hseq & Hjobs & Hsessions). unfold update_user_state.
  split; [done|]. split; [done|].
  intros u s. simpl. rewrite lookup_insert. case_decide as Hu; [|apply Hsessions].
  intros [= <-]. subst u.
  destruct (user_sessions d !! user_id) as [s0|] eqn:Hs0; simpl; [|done].
  by apply Hsessions.
Qed.

Lemma consistent_clear_user_session d user_id :
  consistent d → consistent (clear_user_session d user_id).
Proof.
  intros (Hseq & Hjobs & Hsessions). unfold clear_user_session.
  split; [done|]. split; [done|].
  intros u s. simpl. rewrite lookup_delete. case_decide; [done|apply Hsessions].
Qed.

Lemma consistent_reset_user_generation_state d now user_id :
  consistent d → consistent (reset_user_generation_state d now user_id).
Proof.
  intros (Hseq & Hjobs & Hsessions). unfold reset_user_generation_state.
  split; [done|]. split; [done|].
  intros u s. simpl. rewrite lookup_alter. case_decide as Hu; [subst u|apply Hsessions].
  destruct (user_sessions d !! user_id) as [s0|] eqn:Hs0; simpl; [|done].
  intros [= <-]. simpl. by apply Hsessions.
Qed.

(** X1: every database that the operations make of a fresh file keeps each
    job under its own id, within the ids handed out so far, and each session
    under its own user. *)
Theorem reachable_consistent d : reachable d → consistent d.
Proof.
  induction 1;
    eauto using consistent_init, consistent_create_job,
      consistent_update_job_status, consistent_update_user_state,
      consistent_clear_user_session, consistent_reset_user_generation_state.
Qed.

(** X2: in a database whose jobs lie within the ids handed out so far,
    [create_job] hands out an id above every id in the table, so that it
    overwrites no job; the jobs that were there are unchanged, and the new
    one is pending with every column of the outcome empty. *)
Theorem create_job_is_fresh d now user_id chat_id photos prompt d' job_id :
  consistent d →
  create_job d now user_id chat_id photos prompt = Return (d', job_id) →
  get_job d job_id = None
  ∧ (∀ id j, get_job d id = Some j → id < job_id ∧ get_job d' id = Some j)
  ∧ (∃ j, get_job d' job_id = Some j ∧ Job.id j = job_id
          ∧ Job.user_id j = user_id ∧ Job.chat_id j = chat_id
          ∧ Job.status j = Some (lit "pending")
          ∧ Job.seedance_job_id j = None ∧ Job.video_path j = None
          ∧ Job.completed_at j = None ∧ Job.error_message j = None).
Proof.
  intros (Hseq & Hjobs & _) [-> ->]%create_job_inv.
  unfold get_job. simpl. split; [|split].
  - destruct (jobs d !! (jobs_seq d + 1)) as [j|] eqn:Hj; [|done].
    destruct (Hjobs _ _ Hj). lia.
  - intros id j Hj. destruct (Hjobs _ _ Hj).
    split; [lia|]. rewrite lookup_insert_ne by lia. done.
  - rewrite lookup_insert_eq. eexists. split; [reflexivity|]. by simpl.
Qed.

(** X3: [create_job] replaces the session of the user: it is then
    [generating] with the photos and prompt of the job and points to the
    new job; the sessions of other users are unchanged. *)
Theorem create_job_sets_session d now user_id chat_id photos prompt d' job_id :
  create_job d now user_id chat_id photos prompt = Return (d', job_id) →
  (∃ s, get_user_session d' user_id = Some s
        ∧ Session.state s = Some (lit "generating")
        ∧ Session.photos s = Some (Json.dumps photos)
        ∧ Session.current_prompt s = Some prompt
        ∧ Session.last_job_id s = Some job_id)
  ∧ ∀ other, other ≠ user_id → get_user_session d' other = get_user_session d other.
Proof.
  intros [-> ->]%create_job_inv.
  unfold get_user_session. simpl. split.
  - rewrite lookup_insert_eq. eexists. split; [reflexivity|]. by simpl.
  - intros other Hother. by rewrite lookup_insert_ne.
Qed.

(** X4: [create_job] returns exactly when both ids fit in 64 bits and the
    prompt holds no surrogate code point; the photo paths never stand in
    its way. *)
Theorem create_job_returns_iff d now user_id chat_id photos prompt :
  (∃ result, create_job d now user_id chat_id photos prompt = Return result)
  ↔ Sqlite.fits user_id = true ∧ Sqlite.fits chat_id = true
    ∧ forallb (λ c, negb (is_surrogate c)) prompt = true.
Proof.
  split.
  - intros [result Hresult]. revert Hresult. unfold create_job.
    cbn [Sqlite.bind Sqlite.bind_param].
    destruct (Sqlite.fits user_id); [|done].
    destruct (Sqlite.fits chat_id); [|done].
    rewrite (encode_error_ascii _ (dumps_ascii photos)).
    destruct (Codec.encode_error Codec.utf_8 prompt) eqn:Hprompt; [done|].
    intros _. by apply encode_error_none in Hprompt.
  - intros (Huser & Hchat & Hprompt).
    eexists. apply create_job_returns; [done..|].
    by apply (encode_error_all Codec.utf_8).
Qed.

Lemma alter_absent {A} (f : A → A) (m : gmap Z A) (k : Z) :
  m !! k = None → alter f k m = m.
Proof.
  intros Hk. apply map_eq. intros i. rewrite lookup_alter.
  case_decide; [subst; by rewrite Hk|done].
Qed.

Lemma database_eq d1 d2 :
  jobs d1 = jobs d2 → jobs_seq d1 = jobs_seq d2 →
  user_sessions d1 = user_sessions d2 → d1 = d2.
Proof. destruct d1, d2. simpl. by intros -> -> ->. Qed.

(** X5: [update_job_status] touches the [jobs] table only, and creates no
    job: all sessions and the sequence of ids are as before, and for an id
    that no job has the database is unchanged. *)
Theorem update_job_status_touches_jobs_only d now job_id status a b c :
  (∀ user_id,
     get_user_session (update_job_status d now job_id status a b c) user_id
     = get_user_session d user_id)
  ∧ jobs_seq (update_job_status d now job_id status a b c) = jobs_seq d
  ∧ (get_job d job_id = None → update_job_status d now job_id status a b c = d).
Proof.
  unfold get_job, get_user_session, update_job_status. simpl.
  split; [done|]. split; [done|].
  intros Hnone. apply database_eq; simpl; [|done..]. by apply alter_absent.
Qed.

(** X6: [reset_user_generation_state] creates no session: for a user who
    has none the database is unchanged; and it never touches the sessions of
    other users or any job. *)
Theorem reset_user_generation_state_creates_nothing d now user_id :
  (get_user_session d user_id = None →
     reset_user_generation_state d now user_id = d)
  ∧ (∀ other, other ≠ user_id →
       get_user_session (reset_user_generation_state d now user_id) other
       = get_user_session d other)
  ∧ (∀ job_id, get_job (reset_user_generation_state d now user_id) job_id
               = get_job d job_id).
Proof.
  unfold get_job, get_user_session, reset_user_generation_state. simpl.
  split; [|split].
  - intros Hnone. apply database_eq; simpl; [done..|]. by apply alter_absent.
  - intros other Hother. by rewrite lookup_alter_ne.
  - done.
Qed.


(** X8: [clear_user_session] deletes the session of the user and nothing
    else. *)
Theorem clear_user_session_deletes_one d user_id :
  get_user_session (clear_user_session d user_id) user_id = None
  ∧ (∀ other, other ≠ user_id →
       get_user_session (clear_user_session d user_id) other
       = get_user_session d other)
  ∧ (∀ job_id, get_job (clear_user_session d user_id) job_id = get_job d job_id).
Proof.
  unfold get_user_session, get_job, clear_user_session. simpl. split; [|split].
  - apply lookup_delete_eq.
  - intros other Hother. by rewrite lookup_delete_ne.
  - done.
Qed.

End StoreInvariant.

Lemma create_job_db_created :
  Database.create_job Database._init_db Examples.now 7 70
    Examples.photos Examples.prompt
  = Return (Examples.db_created, 1).
Proof. reflexivity. Qed.

Lemma reachable_consistent_witness : Store.consistent Examples.db_completed.
Proof.
  apply reachable_consistent.
  apply (Store.reach_update_job_status Examples.db_created).
  apply (Store.reach_create_job Database._init_db Examples.now 7 70
           Examples.photos Examples.prompt Examples.db_created 1).
  - apply Store.reach_init.
  - apply create_job_db_created.
Defined.

Lemma create_job_is_fresh_witness :
  Database.get_job Database._init_db 1 = None
  ∧ (∀ id j, Database.get_job Database._init_db id = Some j →
             id < 1 ∧ Database.get_job Examples.db_created id = Some j)
  ∧ (∃ j, Database.get_job Examples.db_created 1 = Some j ∧ Job.id j = 1
          ∧ Job.user_id j = 7 ∧ Job.chat_id j = 70
          ∧ Job.status j = Some (lit "pending")
          ∧ Job.seedance_job_id j = None ∧ Job.video_path j = None
          ∧ Job.completed_at j = None ∧ Job.error_message j = None).
Proof.
  apply (create_job_is_fresh Database._init_db Examples.now 7 70
           Examples.photos Examples.prompt Examples.db_created 1).
  - apply consistent_init.
  - apply create_job_db_created.
Defined.

Lemma create_job_sets_session_witness :
  (∃ s, Database.get_user_session Examples.db_created 7 = Some s
        ∧ Session.state s = Some (lit "generating")
        ∧ Session.photos s = Some (Json.dumps Examples.photos)
        ∧ Session.current_prompt s = Some Examples.prompt
        ∧ Session.last_job_id s = Some 1)
  ∧ ∀ other, other ≠ 7 →
      Database.get_user_session Examples.db_created other
      = Database.get_user_session Database._init_db other.
Proof.
  apply (create_job_sets_session Database._init_db Examples.now 7 70
           Examples.photos Examples.prompt Examples.db_created 1).
  apply create_job_db_created.
Defined.

(** ** More about the generation client *)

Section ClientBudget.

Import Seedance Budget.

Variables (self : Seedance.t) (w : provider).

Lemma slept_app e1 e2 : slept (e1 ++ e2) = slept e1 + slept e2.
Proof. induction e1 as [|[] e1 IH]; simpl; lia. Qed.

Lemma requests_app e1 e2 : requests (e1 ++ e2) = (requests e1 + requests e2)%nat.
Proof. induction e1 as [|[] e1 IH]; simpl; lia. Qed.

Lemma follows_refl s : follows s s [].
Proof. unfold follows. by rewrite app_nil_r. Qed.

Lemma follows_log s events : follows s (log s events) events.
Proof. done. Qed.

Lemma follows_trans s1 s2 s3 e1 e2 :
  follows s1 s2 e1 → follows s2 s3 e2 → follows s1 s3 (e1 ++ e2).
Proof.
  intros (Hd1 & Ht1 & Hf1) (Hd2 & Ht2 & Hf2). repeat split.
  - congruence.
  - by rewrite Ht2, Ht1, app_assoc.
  - set_solver.
Qed.

Lemma poll_budget job_id remaining :
  ∀ attempt s, ∃ events,
    follows s (poll self w job_id remaining attempt s).2 events
    ∧ slept events ≤ 5 * Z.of_nat remaining
    ∧ (requests events ≤ remaining + 1)%nat.
Proof.
  induction remaining as [|remaining IH]; intros attempt s.
  { exists []. split; [apply follows_refl|]. simpl. lia. }
  assert (Hnext : ∃ events,
    follows s (poll self w job_id remaining (S attempt)
                 (log s [HttpGet (status_url self job_id); Sleep 5])).2 events
    ∧ slept events ≤ 5 * Z.of_nat (S remaining)
    ∧ (requests events ≤ S remaining + 1)%nat).
  { destruct (IH (S attempt) (log s [HttpGet (status_url self job_id); Sleep 5]))
      as (events & Hfollows & Hslept & Hreq).
    exists ([HttpGet (status_url self job_id); Sleep 5] ++ events).
    split; [by eapply follows_trans; [apply follows_log|]|].
    rewrite slept_app, requests_app. simpl. lia. }
  assert (Hstop : ∀ o : outcome VideoGenerationResponse, ∃ events,
    follows s (o, log s [HttpGet (status_url self job_id)]).2 events
    ∧ slept events ≤ 5 * Z.of_nat (S remaining)
    ∧ (requests events ≤ S remaining + 1)%nat).
  { intros o. exists [HttpGet (status_url self job_id)].
    split; [apply follows_log|]. simpl. lia. }
  cbn [poll]. unfold mbind, M_bind, bind, emit, lift. cbn [fs db trace].
  fold (status_url self job_id). fold (log s [HttpGet (status_url self job_id)]).
  destruct (get_job w attempt) as [r|e]; [|apply Hstop].
  destruct (code r =? 200); [|unfold log in *; simpl in *; rewrite <- app_assoc; apply Hnext].
  destruct (body r) as [data|e]; [|apply Hstop].
  destruct (JobStatus_of _) as [status|]; [|apply Hstop].
  destruct status; cbn [bool_decide decide_rel JobStatus_eq_dec];
    try (unfold log in *; simpl in *; rewrite <- app_assoc; apply Hnext).
  - rewrite bool_decide_eq_true_2 by done. cbv beta.
    unfold write_file, ret, log. cbn [fs db trace].
    destruct (get_video w (sd_video_url data)) as [download|e].
    + destruct (code download =? 200); [destruct (body download) as [chunks|e]|].
      * exists [HttpGet (status_url self job_id); HttpGet (fmt (sd_video_url data));
                WriteFile (joinpath (video_storage_path self) (fmt job_id ++ lit ".mp4"))
                  (concat chunks)].
        split; [|simpl; lia]. unfold follows. cbn [fs db trace snd].
        split; [done|]. split; [by rewrite <- !app_assoc|].
        apply dom_insert_subseteq.
      * exists [HttpGet (status_url self job_id); HttpGet (fmt (sd_video_url data))].
        split; [|simpl; lia]. unfold follows. cbn [fs db trace snd].
        split; [done|]. split; [by rewrite <- !app_assoc|done].
      * exists [HttpGet (status_url self job_id); HttpGet (fmt (sd_video_url data))].
        split; [|simpl; lia]. unfold follows. cbn [fs db trace snd].
        split; [done|]. split; [by rewrite <- !app_assoc|done].
    + exists [HttpGet (status_url self job_id); HttpGet (fmt (sd_video_url data))].
      split; [|simpl; lia]. unfold follows. cbn [fs db trace snd].
      split; [done|]. split; [by rewrite <- !app_assoc|done].
  - apply Hstop.
Qed.

Lemma generate_video_run request s :
  ∃ events,
    follows s (generate_video self w request s).2 events
    ∧ slept events ≤ 300
    ∧ (requests events ≤ 62)%nat.
Proof.
  unfold generate_video. destruct (mock_mode self).
  - unfold _mock_generate, write_text.
    destruct (Codec.encode_error _ _);
      unfold mbind, M_bind, bind, emit, write_file, ret, raise;
      cbn [fs db trace];
      (eexists [Sleep 1; WriteFile _ _]; split; [|simpl; lia]);
      unfold follows; cbn [fs db trace snd];
      (split; [done|]); (split; [by rewrite <- !app_assoc|]);
      apply dom_insert_subseteq.
  - unfold _real_generate, mbind, M_bind, bind, emit, lift, open_existing.
    cbn -[poll]. fold (submission self request s).
    fold (log s [submission self request s]).
    destruct (post_generate w) as [r|e].
    + destruct (code r =? 200); cbn -[poll].
      * destruct (body r) as [job_id|e].
        -- destruct (poll_budget job_id max_attempts 0%nat
                       (log s [submission self request s]))
             as (events & Hfollows & Hslept & Hrequests).
           exists ([submission self request s] ++ events).
           split; [by eapply follows_trans; [apply follows_log|]|].
           rewrite slept_app, requests_app. unfold max_attempts in *. simpl. lia.
        -- exists [submission self request s]. split; [apply follows_log|].
           simpl. lia.
      * exists [submission self request s]. split; [apply follows_log|].
        simpl. lia.
    + exists [submission self request s]. split; [apply follows_log|].
      simpl. lia.
Qed.


(** X9: whatever the provider answers, a call of [generate_video], in
    either mode, leaves the database as it was and removes no file; it
    waits for 300 seconds at most and sends at most 62 requests: the
    submission, 60 status requests and one download. *)
Theorem generate_video_budget request s :
  ∃ events,
    follows s (generate_video self w request s).2 events
    ∧ slept events ≤ 300
    ∧ (requests events ≤ 62)%nat.
Proof. apply generate_video_run. Qed.




End ClientBudget.


(** ** More about the intake flow *)

Section PromptIntake.

Import PromptHandler.

Variables (repr : str → str) (self : PromptHandler.t) (w : Seedance.provider)
  (now : str).

(** X11: [handle_prompt] turns a prompt away with one reply and changes
    nothing: when the user has no session, when the session holds no photo,
    and when validation of the trimmed text gives a reason. *)
Theorem handle_prompt_rejects_without_effect (update : Telegram.Update) (s : io) :
  let user_id := Telegram.effective_user update in
  let text := strip (Telegram.text (Telegram.message update)) in
  (Database.get_user_session (db s) user_id = None →
     handle_prompt repr self w now update s
     = (Return (),
        log s [ReplyText (lit "Please start a new generation with /generate first.")]))
  ∧ (∀ session photos,
       Database.get_user_session (db s) user_id = Some session →
       Session.photos session ≫= Json.loads = Some photos →
       (photos = [] →
          handle_prompt repr self w now update s
          = (Return (),
             log s [ReplyText
               (lit "I need photos first! Please send 1-4 reference photos using /generate.")]))
       ∧ (∀ reason, photos ≠ [] → _validate_prompt self text = Some reason →
            handle_prompt repr self w now update s
            = (Return (), log s [ReplyText ([0x274c%N] ++ lit " " ++ reason)]))).
Proof.
  intros user_id text. split.
  - intros Hnone. unfold handle_prompt, mbind, M_bind, bind, db_get.
    fold user_id. by rewrite Hnone.
  - intros session photos Hsession Hphotos.
    assert (Hstart : ∀ k : list str → M (),
      (session0 ← db_get (λ d, Database.get_user_session d user_id);
       match session0 with
       | None => emit (ReplyText (lit "Please start a new generation with /generate first."))
       | Some session0 => photos0 ← json_loads (Session.photos session0); k photos0
       end) s = k photos s).
    { intros k. unfold mbind, M_bind, bind, db_get. rewrite Hsession.
      by rewrite (json_loads_stored _ _ _ Hphotos). }
    split.
    + intros ->. unfold handle_prompt. fold user_id. by rewrite Hstart.
    + intros reason Hne Hreason. unfold handle_prompt. fold user_id text.
      rewrite Hstart. rewrite bool_decide_eq_false_2 by done. by rewrite Hreason.
Qed.





(** The request that [_start_generation] builds and the state in which it
    calls the client. *)
Local Abbreviation request_of photos prompt :=
  {| Seedance.prompt := prompt; Seedance.images := photos;
     Seedance.resolution := lit "1080p";
     Seedance.duration := None; Seedance.seed := None |}.

Local Abbreviation started s job_id :=
  {| fs := fs s;
     db := Database.update_job_status (db s) now job_id (lit "generating")
             None None None;
     trace := trace s ++ [ReplyText msg_starting] |}.













End PromptIntake.




(** ** More about photo intake *)

Section PhotoRefusal.

Import PhotoHandler.

Variables (self : PhotoHandler.t) (tg : Telegram.env) (now : str).


End PhotoRefusal.

